(** * Search-Engine: inverted index construction and query scoring

    A shallow embedding of [index_constructor.py] (class [InvertedIndex]) and
    [basic_query.py] (class [BasicQuery]).

    Conventions of the embedding.
    - Python [float]s are modelled by the real numbers: [/] is [py_truediv]
      (raises [ZeroDivisionError] on a zero divisor), [math.log] is [py_log]
      (raises [ValueError] outside its domain) over Stdlib's [ln].
    - A Python [dict] / [defaultdict] is an insertion-ordered association list
      ([Dict]): iteration order is insertion order, assignment to an existing
      key keeps its position.
    - The MongoDB collection [inverted_index] is a list of term rows in natural
      order; [find_one], [$push] with upsert, and the positional [$set] are
      written out on that list.  Driver calls are taken synchronously: [await]
      and the semaphore of [build_index] are erased, documents are processed in
      manifest order, and a write on the in-memory store always succeeds.
    - [nltk.word_tokenize], the Snowball stemmer and [stop_words.txt] are not
      part of the repository: they are Section variables. *)

From Stdlib Require Import List String Ascii Bool Arith Lia.
From Stdlib Require Import Reals Lra Permutation Sorted.
Import ListNotations.

Local Open Scope string_scope.
Local Open Scope nat_scope.
Local Open Scope list_scope.

(* ================================================================== *)
(** ** Python values: exceptions, floats, dictionaries                  *)
(* ================================================================== *)

Inductive exn : Type :=
| TypeError            (* subscripting / calling a method on None       *)
| KeyError             (* dict[key] on a missing key                    *)
| AttributeError       (* None.startswith                               *)
| ZeroDivisionError    (* x / 0                                         *)
| ValueError           (* math domain error, unpacking mismatch         *)
| FileNotFoundError
| JSONDecodeError.

Inductive result (A : Type) : Type :=
| Ok (a : A)
| Raise (e : exn).
Arguments Ok {A} a.
Arguments Raise {A} e.

Definition rbind {A B : Type} (m : result A) (k : A -> result B) : result B :=
  match m with
  | Ok a => k a
  | Raise e => Raise e
  end.

Notation "'let?' x ':=' m 'in' k" := (rbind m (fun x => k))
  (at level 10, x pattern, m at level 100, k at level 200).

(** [for x in xs: acc = body(acc, x)] where the body may raise. *)
Fixpoint for_each {A X : Type} (body : A -> X -> result A) (xs : list X) (acc : A)
  : result A :=
  match xs with
  | [] => Ok acc
  | x :: xs' => let? acc' := body acc x in for_each body xs' acc'
  end.

(** [x / y] on floats (and [int / int], which is true division). *)
Definition py_truediv (x y : R) : result R :=
  if Req_dec_T y 0 then Raise ZeroDivisionError else Ok (x / y)%R.

(** [math.log(x)]. *)
Definition py_log (x : R) : result R :=
  if Rle_dec x 0 then Raise ValueError else Ok (ln x).

Definition Rsum (l : list R) : R := fold_right Rplus 0%R l.

Module Dict.
Section Dict.
Context {V : Type}.

Definition t : Type := list (string * V).

Fixpoint get (k : string) (d : t) : option V :=
  match d with
  | [] => None
  | (k', v) :: d' => if String.eqb k' k then Some v else get k d'
  end.

(** [d[k] = v]: in place when the key exists, appended otherwise. *)
Fixpoint set (k : string) (v : V) (d : t) : t :=
  match d with
  | [] => [(k, v)]
  | (k', v') :: d' =>
      if String.eqb k' k then (k', v) :: d' else (k', v') :: set k v d'
  end.

Definition keys (d : t) : list string := map fst d.
Definition values (d : t) : list V := map snd d.

(** [defaultdict(dflt)]: [d[k]] reads the default for a missing key. *)
Definition get_default (dflt : V) (k : string) (d : t) : V :=
  match get k d with
  | Some v => v
  | None => dflt
  end.

(** [d[k] = f(d[k])] on a [defaultdict]. *)
Definition update (dflt : V) (k : string) (f : V -> V) (d : t) : t :=
  set k (f (get_default dflt k d)) d.
End Dict.
Arguments t : clear implicits.
End Dict.

(* ================================================================== *)
(** ** Text primitives                                                  *)
(* ================================================================== *)

Definition is_digit (c : ascii) : bool :=
  let n := nat_of_ascii c in (48 <=? n) && (n <=? 57).
Definition is_upper (c : ascii) : bool :=
  let n := nat_of_ascii c in (65 <=? n) && (n <=? 90).
Definition is_lower (c : ascii) : bool :=
  let n := nat_of_ascii c in (97 <=? n) && (n <=? 122).
Definition is_alnum (c : ascii) : bool :=
  is_digit c || is_upper c || is_lower c.

Fixpoint string_map (f : ascii -> ascii) (s : string) : string :=
  match s with
  | EmptyString => EmptyString
  | String c s' => String (f c) (string_map f s')
  end.

Fixpoint string_forall (p : ascii -> bool) (s : string) : bool :=
  match s with
  | EmptyString => true
  | String c s' => p c && string_forall p s'
  end.

(** [re.sub('[^a-zA-Z0-9]', ' ', text)] *)
Definition re_sub_non_alnum (text : string) : string :=
  string_map (fun c => if is_alnum c then c else " "%char) text.

(** [str.lower] on the ASCII letters that survive [re_sub_non_alnum]. *)
Definition py_lower (s : string) : string :=
  string_map (fun c => if is_upper c then ascii_of_nat (nat_of_ascii c + 32) else c) s.

(** [str.isnumeric] on ASCII text: non-empty and only digits. *)
Definition py_isnumeric (s : string) : bool :=
  match s with
  | EmptyString => false
  | _ => string_forall is_digit s
  end.

(** [x in collection] for strings. *)
Definition mem (x : string) (l : list string) : bool :=
  existsb (String.eqb x) l.

(** [s.split(sep)] for a one-character separator. *)
Fixpoint py_split (sep : ascii) (s : string) : list string :=
  match s with
  | EmptyString => [EmptyString]
  | String c s' =>
      if Ascii.eqb c sep then EmptyString :: py_split sep s'
      else match py_split sep s' with
           | [] => [String c EmptyString]
           | w :: ws => String c w :: ws
           end
  end.

(* ================================================================== *)
(** ** The postings store                                               *)
(* ================================================================== *)

(** One element of a term row's [docs] array. [tf_idf] is absent until the
    second phase of the build. *)
Record posting : Type := mkPosting {
  location : string;
  tf : R;
  html_weight : R;
  tf_idf : option R;
}.

(** One document of the collection: [{'lemma': ..., 'docs': [...]}]. *)
Record term_row : Type := mkRow {
  lemma : string;
  docs : list posting;
}.

Definition store : Type := list term_row.


(** [collection.find_one({'lemma': l})]: the first matching row, or [None]. *)
Definition find_one (l : string) (c : store) : option term_row :=
  find (fun r => String.eqb (lemma r) l) c.

(** [collection.distinct("docs.location")] *)
Definition distinct_locations (c : store) : list string :=
  nodup string_dec (flat_map (fun r => map location (docs r)) c).

(** [collection.distinct('lemma')] *)
Definition distinct_lemmas (c : store) : list string :=
  nodup string_dec (map lemma c).

(** [UpdateOne({'lemma': l}, {'$push': {'docs': p}}, upsert=True)] *)
Fixpoint push_posting (l : string) (p : posting) (c : store) : store :=
  match c with
  | [] => [mkRow l [p]]
  | r :: c' =>
      if String.eqb (lemma r) l
      then mkRow (lemma r) (docs r ++ [p]) :: c'
      else r :: push_posting l p c'
  end.

(** The positional operator of [{'$set': {'docs.$.tf_idf': v}}]: the first
    element of the array whose location matches. *)
Fixpoint set_first_tf_idf (loc : string) (v : R) (ps : list posting) : list posting :=
  match ps with
  | [] => []
  | p :: ps' =>
      if String.eqb (location p) loc
      then mkPosting (location p) (tf p) (html_weight p) (Some v) :: ps'
      else p :: set_first_tf_idf loc v ps'
  end.

Definition has_location (loc : string) (ps : list posting) : bool :=
  existsb (fun p => String.eqb (location p) loc) ps.

(** [UpdateOne({'lemma': l, 'docs.location': loc},
               {'$set': {'docs.$.tf_idf': v}}, upsert=True)]:
    the first row matching both conditions is updated.  The builder only
    issues it for a posting it has just read, so a match exists and the
    upsert branch is never taken; without a match the store is left as is. *)
Fixpoint set_tf_idf (l loc : string) (v : R) (c : store) : store :=
  match c with
  | [] => []
  | r :: c' =>
      if String.eqb (lemma r) l && has_location loc (docs r)
      then mkRow (lemma r) (set_first_tf_idf loc v (docs r)) :: c'
      else r :: set_tf_idf l loc v c'
  end.

(* ================================================================== *)
(** ** The world the two classes act on                                 *)
(* ================================================================== *)

(** A line written by [print] or [f.write]; formatted numbers are kept as
    numbers. *)
Inductive line : Type :=
  | Text (s : string)
  | TextNat (before : string) (n : nat) (after : string)
  | TextReal (before : string) (x : R) (after : string).

(** [bookkeeping.json] as [open] + [json.load] see it. *)
Inductive json_file : Type :=
  | FileMissing
  | FileCorrupt
  | FileJson (data : Dict.t string).

(** One node of [soup.find_all(True)]: [tag.name] and [tag.text]. *)
Record tag : Type := mkTag {
  tag_name : string;
  tag_text : string;
}.

(** What the program reads and never writes. *)
Record env : Type := mkEnv {
  file_path : string;                            (* path of bookkeeping.json *)
  bookkeeping_json : json_file;
  page : string -> string -> option (list tag);  (* folder, file |-> parsed page *)
  data_size : store -> R;                        (* dbStats()['dataSize'] *)
}.

(** What the program mutates. *)
Record state : Type := mkState {
  collection : store;
  num_documents : nat;
  stdout : list line;
  analytics_txt : list line;
}.

Definition M (A : Type) : Type := state -> result A * state.

Definition ret {A : Type} (a : A) : M A := fun s => (Ok a, s).
Definition raise {A : Type} (e : exn) : M A := fun s => (Raise e, s).
Definition bind {A B : Type} (m : M A) (k : A -> M B) : M B :=
  fun s => match m s with
           | (Ok a, s') => k a s'
           | (Raise e, s') => (Raise e, s')
           end.
Definition lift {A : Type} (r : result A) : M A := fun s => (r, s).

Notation "x <- m ;; k" := (bind m (fun x => k))
  (at level 61, m at next level, right associativity).
Notation "m ;; k" := (bind m (fun _ => k))
  (at level 61, right associativity).

Definition print (l : line) : M unit :=
  fun s => (Ok tt, mkState (collection s) (num_documents s) (stdout s ++ [l]) (analytics_txt s)).

Definition f_open_w : M unit :=
  fun s => (Ok tt, mkState (collection s) (num_documents s) (stdout s) []).

Definition f_write (l : line) : M unit :=
  fun s => (Ok tt, mkState (collection s) (num_documents s) (stdout s) (analytics_txt s ++ [l])).

Definition get_collection : M store := fun s => (Ok (collection s), s).

Definition put_collection (c : store) : M unit :=
  fun s => (Ok tt, mkState c (num_documents s) (stdout s) (analytics_txt s)).

Definition get_num_documents : M nat := fun s => (Ok (num_documents s), s).

Definition incr_num_documents : M unit :=
  fun s => (Ok tt, mkState (collection s) (S (num_documents s)) (stdout s) (analytics_txt s)).

(** [for x in xs: body(x)] *)
Fixpoint forM_ {X : Type} (body : X -> M unit) (xs : list X) : M unit :=
  match xs with
  | [] => ret tt
  | x :: xs' => body x ;; forM_ body xs'
  end.

(** [[f(x) for x in xs]] *)
Fixpoint mapM {X Y : Type} (f : X -> M Y) (xs : list X) : M (list Y) :=
  match xs with
  | [] => ret []
  | x :: xs' => y <- f x ;; ys <- mapM f xs' ;; ret (y :: ys)
  end.

(** [sorted(items, key=lambda x: x[1], reverse=True)]: Python's sort is
    stable, also under [reverse=True]; a stable insertion sort returns the
    same list. *)
Fixpoint insert_desc {K : Type} (x : K * R) (l : list (K * R)) : list (K * R) :=
  match l with
  | [] => [x]
  | y :: l' =>
      if Rlt_dec (snd x) (snd y) then y :: insert_desc x l' else x :: y :: l'
  end.

Fixpoint sorted_desc {K : Type} (l : list (K * R)) : list (K * R) :=
  match l with
  | [] => []
  | x :: l' => insert_desc x (sorted_desc l')
  end.

(* ================================================================== *)
(** ** Stand-ins for the external collaborators                         *)
(* ================================================================== *)

(** On text that contains only letters, digits and blanks (which is what
    [re_sub_non_alnum] produces) a word tokenizer splits at blanks.  This
    splitter and the identity stemmer instantiate the Section variables
    wherever a statement is evaluated on concrete text. *)
Fixpoint split_blanks_from (cur : string) (s : string) : list string :=
  match s with
  | EmptyString =>
      match cur with
      | EmptyString => []
      | _ => [cur]
      end
  | String c s' =>
      if Ascii.eqb c " "%char
      then match cur with
           | EmptyString => split_blanks_from EmptyString s'
           | _ => cur :: split_blanks_from EmptyString s'
           end
      else split_blanks_from (String.append cur (String c EmptyString)) s'
  end.

Definition split_blanks (s : string) : list string :=
  split_blanks_from EmptyString s.

Definition no_stem (s : string) : string := s.

(** *** A two-document corpus

    Document [0/1] is [<title>fox</title><p>fox jumps</p>], document [0/2]
    is [<p>dog sleeps</p>]. *)

Definition soup_fox : list tag := [mkTag "title" "fox"; mkTag "p" "fox jumps"].
Definition soup_dog : list tag := [mkTag "p" "dog sleeps"].

(** A tag in which a lemma occurs twice. *)
Definition soup_fox_fox : list tag := [mkTag "p" "fox fox"].

(** The store after phase 1, and after phase 2 (2 documents, every lemma in
    one of them: idf = ln 2). *)
Definition store_phase1 : store :=
  [ mkRow "fox" [mkPosting "0/1" 1 (7 / 10) None];
    mkRow "jumps" [mkPosting "0/1" (1 / 2) (1 / 10) None];
    mkRow "dog" [mkPosting "0/2" (1 / 2) (1 / 10) None];
    mkRow "sleeps" [mkPosting "0/2" (1 / 2) (1 / 10) None] ]%R.

Definition store_built : store :=
  [ mkRow "fox" [mkPosting "0/1" 1 (7 / 10) (Some (1 * ln 2))];
    mkRow "jumps" [mkPosting "0/1" (1 / 2) (1 / 10) (Some (1 / 2 * ln 2))];
    mkRow "dog" [mkPosting "0/2" (1 / 2) (1 / 10) (Some (1 / 2 * ln 2))];
    mkRow "sleeps" [mkPosting "0/2" (1 / 2) (1 / 10) (Some (1 / 2 * ln 2))] ]%R.


(** The weights [process_query] computes for the query "fox" on [store_built]
    and on [store_single]. *)
Definition fox_weights : Dict.t R :=
  [("fox", (INR 1 / INR 1 * ln (INR 2 / INR 1))%R)].


(** A store of three documents in which [0/1] and [0/2] hold "dog" with the
    same tf, html weight and tf_idf, and the scores the query "dog" gives
    them. *)
Definition store_tie : store :=
  [ mkRow "dog" [mkPosting "0/1" (1 / 2) (1 / 10) (Some 1);
                 mkPosting "0/2" (1 / 2) (1 / 10) (Some 1)] ]%R.

Definition tie_scores : Dict.t R :=
  [("0/1", (0 + 1 / 10 / 10000 + (0 + INR 1 / INR 1 * ln (INR 3 / INR 2) * 1))%R);
   ("0/2", (0 + 1 / 10 / 10000 + (0 + INR 1 / INR 1 * ln (INR 3 / INR 2) * 1))%R)].

(** A store of two documents that holds the three test words of the
    analytics, and a state in which an earlier report is on file. *)
Definition store_words : store :=
  [ mkRow "informatics" [mkPosting "0/1" 1 (1 / 10) (Some (ln 2))];
    mkRow "mondego" [mkPosting "0/2" (1 / 2) (1 / 10) (Some (1 / 2 * ln 2))];
    mkRow "irvine" [mkPosting "0/2" (1 / 2) (6 / 10) (Some (1 / 2 * ln 2))] ]%R.

Definition state_words : state :=
  mkState store_words 2 [] [Text "Analytics for Milestone #1"; Text "stale"].

Definition vector_length_of (query_tfidf : Dict.t R) : R :=
  sqrt (Rsum (map (fun v => (v * v)%R) (Dict.values query_tfidf))).

(** A bookkeeping file without the entry of [0/1], and no file at all. *)
Definition no_page (folder file : string) : option (list tag) := None.
Definition no_size (c : store) : R := 0%R.

Definition env_missing_entry : env :=
  mkEnv "WEBPAGES_RAW/bookkeeping.json"
        (FileJson [("0/2", "www.ics.uci.edu/dog")])
        no_page no_size.

Definition env_missing_file : env :=
  mkEnv "WEBPAGES_RAW/bookkeeping.json" FileMissing no_page no_size.

(** The corpus on disk: the bookkeeping file and the two parsed pages. *)
Definition corpus_page (folder file : string) : option (list tag) :=
  if String.eqb folder "0"
  then if String.eqb file "1" then Some soup_fox
       else if String.eqb file "2" then Some soup_dog
            else None
  else None.

Definition env_corpus : env :=
  mkEnv "WEBPAGES_RAW/bookkeeping.json"
        (FileJson [("0/1", "www.ics.uci.edu/fox"); ("0/2", "www.ics.uci.edu/dog")])
        corpus_page no_size.

Definition state_empty : state := mkState [] 0 [] [].
Definition state_built : state := mkState store_built 2 [] [].
Definition state_phase1 : state := mkState store_phase1 2 [] [].

(* ================================================================== *)
(** ** The two classes                                                  *)
(* ================================================================== *)

Section Engine.

(** [nltk.word_tokenize], [EnglishStemmer().stem] and the contents of
    [stop_words.txt]. *)
Variable word_tokenize : string -> list string.
Variable stem : string -> string.
Variable stopWords : list string.

Variable E : env.

(* ---------------------------------------------------------------- *)
(** *** index_constructor.py: class InvertedIndex                     *)
(* ---------------------------------------------------------------- *)

Definition htmlWeights : Dict.t R :=
  [("title", 6 / 10); ("h1", 5 / 10); ("h2", 4 / 10); ("h3", 3 / 10); ("h4", 2 / 10)]%R.

(** [self.htmlWeights.get(tag_name, 0.1)] *)
Definition tag_weight (name : string) : R :=
  Dict.get_default (1 / 10)%R name htmlWeights.

(** The value type of the [lemmas] dictionary of [process_document]. *)
Record lemma_data : Type := mkData {
  freq : nat;
  data_html_weight : R;
}.

(** [[l.lower() for l in nltk.word_tokenize(content)
        if (not l.lower() in self.stopWords) and len(l) > 2]] *)
Definition document_tokens (content : string) : list string :=
  map py_lower
    (filter (fun l => negb (mem (py_lower l) stopWords) && (2 <? String.length l))
            (word_tokenize content)).

(** The body of the inner loop of [process_document]. *)
Definition count_token (w : R) (lemmas : Dict.t lemma_data) (l : string)
  : Dict.t lemma_data :=
  if negb (py_isnumeric l)
  then Dict.update (mkData 0 0%R) (stem l)
         (fun d => mkData (freq d + 1) (data_html_weight d + w)%R) lemmas
  else lemmas.

(** The body of the outer loop of [process_document]. *)
Definition process_tag (lemmas : Dict.t lemma_data) (t : tag) : Dict.t lemma_data :=
  let w := tag_weight (tag_name t) in
  let content := re_sub_non_alnum (tag_text t) in
  fold_left (count_token w) (document_tokens content) lemmas.

Definition process_document (soup : list tag) : Dict.t lemma_data :=
  fold_left process_tag soup [].

(** The [updates] list of [add_to_index]: one [$push] per lemma. *)
Definition posting_updates (doc_id : string) (lemmas : Dict.t lemma_data)
  : result (list (string * posting)) :=
  let total_words := List.length lemmas in
  for_each
    (fun updates item =>
       let '(l, data) := item in
       let? tf := py_truediv (INR (freq data)) (INR total_words) in
       Ok (updates ++ [(l, mkPosting doc_id tf (data_html_weight data) None)]))
    lemmas [].

(** [self.collection.bulk_write(updates)] for a list of pushes. *)
Definition bulk_push (updates : list (string * posting)) (c : store) : store :=
  fold_left (fun c u => push_posting (fst u) (snd u) c) updates c.

Definition add_to_index (lemmas : Dict.t lemma_data) (folder file : string) : M unit :=
  n <- get_num_documents ;;
  print (TextNat ("Adding " ++ folder ++ "/" ++ file ++ " to DB (") n ")") ;;
  updates <- lift (posting_updates (folder ++ "/" ++ file) lemmas) ;;
  match updates with
  | [] => ret tt
  | _ :: _ =>
      c <- get_collection ;;
      put_collection (bulk_push updates c) ;;
      incr_num_documents
  end.

(** [idf = log(total_docs / df) if df > 0 else 0] *)
Definition idf_of (total_docs df : nat) : result R :=
  if 0 <? df
  then let? ratio := py_truediv (INR total_docs) (INR df) in py_log ratio
  else Ok 0%R.

(** The inner loop of [calculate_tf_idf]: one [$set] per posting of the
      row, each announced on stdout. *)
Definition tf_idf_updates (l : string) (idf : R) (ps : list posting)
  : M (list (string * string * R)) :=
  mapM (fun doc =>
          let v := (tf doc * idf)%R in
          print (TextReal ("Calculated tf_idf for " ++ l ++ ", " ++ location doc ++ ": ")
                          v "") ;;
          ret (l, location doc, v))
       ps.

(** [self.collection.bulk_write(updates)] for a list of [$set]s; an empty
      list of operations is refused by the driver, which the surrounding
      [try] reports. *)
Definition bulk_set (updates : list (string * string * R)) : M unit :=
  match updates with
  | [] => print (Text "Error calculating tf_idf:")
  | _ :: _ =>
      c <- get_collection ;;
      put_collection
        (fold_left (fun c u => set_tf_idf (fst (fst u)) (snd (fst u)) (snd u) c)
                   updates c)
  end.

Definition calculate_tf_idf : M unit :=
  c <- get_collection ;;
  let total_docs := List.length (distinct_locations c) in
  forM_ (fun entry =>
           let df := List.length (docs entry) in
           idf <- lift (idf_of total_docs df) ;;
           updates <- tf_idf_updates (lemma entry) idf (docs entry) ;;
           bulk_set updates)
        c ;;
  print (Text "tf_idf calculations complete.").

(* ---------------------------------------------------------------- *)
(** *** basic_query.py: class BasicQuery                              *)
(* ---------------------------------------------------------------- *)

(** The one field of the object that is computed from the store, once,
    by [__init__]. *)
Record BasicQuery : Type := mkQuery {
  total_docs : nat;
}.

Definition BasicQuery_init : M BasicQuery :=
  c <- get_collection ;;
  ret (mkQuery (List.length (distinct_locations c))).

Definition format_urls (urls : list (option string)) : result (list string) :=
  for_each
    (fun full_urls url =>
       match url with
       | None => Raise AttributeError            (* None.startswith *)
       | Some u =>
           if negb (String.prefix "http://" u) && negb (String.prefix "https://" u)
           then Ok (full_urls ++ [String.append "http://" u])
           else Ok (full_urls ++ [u])
       end)
    urls [].

Definition get_url (doc_id : string) : M (option string) :=
  match bookkeeping_json E with
  | FileJson data =>
      match Dict.get doc_id data with
      | Some url => ret (Some url)
      | None => raise KeyError                   (* data[doc_id] *)
      end
  | FileCorrupt =>
      print (Text (String.append "Error: Invalid JSON in file " (file_path E))) ;;
      ret None
  | FileMissing =>
      print (Text (String.append "Error: File "
                     (String.append (file_path E) " not found"))) ;;
      ret None
  end.

(** The body of the loop of [tokenize_query]. *)
Definition count_query_token (lemmas : Dict.t nat) (l : string) : Dict.t nat :=
  if negb (py_isnumeric l)
  then Dict.update 0 (stem l) (fun n => n + 1) lemmas
  else lemmas.

Definition query_tokens (query : string) : list string :=
  map py_lower (word_tokenize (re_sub_non_alnum query)).

Definition tokenize_query (query : string) : Dict.t nat :=
  fold_left count_query_token (query_tokens query) [].

(** The first loop of [process_query]: [query_tfidf[lemma] = tf / len(lemmas)]. *)
Definition query_tf (lemmas : Dict.t nat) : result (Dict.t R) :=
  for_each
    (fun query_tfidf item =>
       let '(l, n) := item in
       let? v := py_truediv (INR n) (INR (List.length lemmas)) in
       Ok (Dict.set l v query_tfidf))
    lemmas [].

(** [self.collection.find_one({'lemma': lemma})['docs']] *)
Definition postings_of (c : store) (l : string) : result (list posting) :=
  match find_one l c with
  | Some row => Ok (docs row)
  | None => Raise TypeError                      (* None['docs'] *)
  end.

(** [log(self.total_docs / len(postings_list))] *)
Definition log_ratio (self : BasicQuery) (postings_list : list posting) : result R :=
  let? ratio := py_truediv (INR (total_docs self)) (INR (List.length postings_list)) in
  py_log ratio.

(** The second loop of [process_query]: [query_tfidf[lemma] *= doc_freq]. *)
Definition weigh_query (self : BasicQuery) (c : store) (query_tfidf : Dict.t R)
  : result (Dict.t R) :=
  for_each
    (fun acc l =>
       let? postings_list := postings_of c l in
       let? doc_freq := match postings_list with
                        | [] => Ok 0%R
                        | _ :: _ => log_ratio self postings_list
                        end in
       Ok (Dict.update 0%R l (fun v => (v * doc_freq)%R) acc))
    (Dict.keys query_tfidf) query_tfidf.

Definition process_query (self : BasicQuery) (c : store) (query : string)
  : result (Dict.t R * R) :=
  let lemmas := tokenize_query query in
  let? query_tfidf := query_tf lemmas in
  let? query_tfidf := weigh_query self c query_tfidf in
  let vector_length := sqrt (Rsum (map (fun v => v * v)%R (Dict.values query_tfidf))) in
  Ok (query_tfidf, vector_length).

Definition normalize_doc_tfidf (doc_vector : Dict.t (Dict.t R)) : Dict.t R :=
  fold_left
    (fun lengths item =>
       Dict.set (fst item)
                (sqrt (Rsum (map (fun v => v * v)%R (Dict.values (snd item)))))
                lengths)
    doc_vector [].

(** The two accumulators of [calculate_cosine_similarity]. *)
Record accumulators : Type := mkAcc {
  doc_vectors : Dict.t (Dict.t R);
  scores : Dict.t R;
}.

(** The body of the loop over one postings list (lines 105-109). *)
Definition score_posting (self : BasicQuery) (l : string) (postings_list : list posting)
           (acc : accumulators) (doc : posting) : result accumulators :=
  let doc_id := location doc in
  (* the default of [doc.get] is an argument: it is computed in every case *)
  let? lr := log_ratio self postings_list in
  let? fallback := py_truediv (tf doc) lr in
  let tf_idf := match tf_idf doc with
                | Some v => v
                | None => fallback
                end in
  Ok (mkAcc (Dict.update [] doc_id (Dict.set l tf_idf) (doc_vectors acc))
            (Dict.update 0%R doc_id (fun s => (s + html_weight doc / 10000)%R)
                         (scores acc))).

(** The loop over the query lemmas (lines 102-109). *)
Definition score_postings (self : BasicQuery) (c : store) (query_tfidf : Dict.t R)
  : result accumulators :=
  for_each
    (fun acc l =>
       let? postings_list := postings_of c l in
       for_each (score_posting self l postings_list) postings_list acc)
    (Dict.keys query_tfidf) (mkAcc [] []).

(** The loop over the document vectors (lines 113-119). *)
Definition add_cosine (query_tfidf : Dict.t R) (doc_vectors : Dict.t (Dict.t R))
           (scores : Dict.t R) : Dict.t R :=
  fold_left
    (fun scores item =>
       let '(doc_id, data) := item in
       let cosine_similarity :=
         fold_left (fun cs lv => (cs + Dict.get_default 0 (fst lv) query_tfidf * snd lv)%R)
                   data 0%R in
       Dict.update 0%R doc_id (fun s => (s + cosine_similarity)%R) scores)
    doc_vectors scores.

Definition final_scores (self : BasicQuery) (c : store) (query : string)
  : result (Dict.t R) :=
  let? (query_tfidf, _) := process_query self c query in
  let? acc := score_postings self c query_tfidf in
  let _ := normalize_doc_tfidf (doc_vectors acc) in
  Ok (add_cosine query_tfidf (doc_vectors acc) (scores acc)).

Definition calculate_cosine_similarity (self : BasicQuery) (c : store) (query : string)
  : result (list string) :=
  let? scores := final_scores self c query in
  let sorted_scores := sorted_desc scores in
  Ok (map fst (firstn 20 sorted_scores)).

Definition query_index (self : BasicQuery) (query : string) : M (list string) :=
  c <- get_collection ;;
  results <- lift (calculate_cosine_similarity self c query) ;;
  urls <- match results with
          | [] => ret []
          | _ :: _ => mapM get_url results
          end ;;
  lift (format_urls urls).

(* ---------------------------------------------------------------- *)
(** *** InvertedIndex, continued                                      *)
(* ---------------------------------------------------------------- *)

Definition test_queries : list string := ["informatics"; "mondego"; "irvine"].

Definition generate_analytics : M unit :=
  c <- get_collection ;;
  let db_size := (data_size E c / 1024)%R in
  let unique_words := distinct_lemmas c in
  query_engine <- BasicQuery_init ;;
  n <- get_num_documents ;;
  f_open_w ;;
  print (Text "running analytics now") ;;
  f_write (Text "Analytics for Milestone #1") ;;
  f_write (TextNat "Total number of documents: " n "") ;;
  f_write (TextReal "Total size of index on disk: " db_size " KB") ;;
  f_write (TextNat "Number of unique words: " (List.length unique_words) "") ;;
  print (Text "testing queries now") ;;
  f_write (Text "Testing Queries") ;;
  forM_ (fun query =>
           results <- query_index query_engine query ;;
           f_write (Text (String.append "Query: " query)) ;;
           f_write (TextNat "Number of URLs retrieved: " (List.length results) "") ;;
           f_write (Text "First 20 URLs:") ;;
           forM_ (fun url => f_write (Text url)) (firstn 20 results) ;;
           f_write (Text ""))
        test_queries.


(** The coroutine [process_dir] of [build_index], for one manifest key. *)
Definition process_dir (directory : string) : M unit :=
  match py_split "/"%char directory with
  | [folder; file] =>
      match page E folder file with
      | Some soup =>
          let lemmas := process_document soup in
          add_to_index lemmas folder file
      | None => raise FileNotFoundError
      end
  | _ => raise ValueError                        (* folder, file = ... *)
  end.


(* ================================================================ *)
(** ** Dictionaries                                                   *)
(* ================================================================ *)

Lemma dict_get_set_same {V : Type} (k : string) (v : V) (d : Dict.t V) :
  Dict.get k (Dict.set k v d) = Some v.
Proof.
  induction d as [|[k' v'] d IH]; simpl.
  - now rewrite String.eqb_refl.
  - destruct (String.eqb k' k) eqn:Hk; simpl; rewrite Hk; auto.
Qed.

Lemma dict_get_set_other {V : Type} (k k' : string) (v : V) (d : Dict.t V) :
  k <> k' -> Dict.get k' (Dict.set k v d) = Dict.get k' d.
Proof.
  intros Hne. induction d as [|[k0 v0] d IH]; simpl.
  - destruct (String.eqb_spec k k'); [contradiction | reflexivity].
  - destruct (String.eqb_spec k0 k) as [->|Hk0]; simpl.
    + destruct (String.eqb_spec k k'); [contradiction | reflexivity].
    + now rewrite IH.
Qed.

Lemma dict_in_keys_set {V : Type} (k x : string) (v : V) (d : Dict.t V) :
  In x (Dict.keys (Dict.set k v d)) <-> x = k \/ In x (Dict.keys d).
Proof.
  unfold Dict.keys. induction d as [|[k0 v0] d IH]; simpl.
  - intuition.
  - destruct (String.eqb_spec k0 k) as [->|Hk0]; simpl.
    + intuition.
    + rewrite IH. intuition.
Qed.

Lemma dict_get_none {V : Type} (k : string) (d : Dict.t V) :
  Dict.get k d = None <-> ~ In k (Dict.keys d).
Proof.
  unfold Dict.keys. induction d as [|[k0 v0] d IH]; simpl.
  - intuition.
  - destruct (String.eqb_spec k0 k) as [->|Hk0].
    + split; [discriminate | intros H; exfalso; apply H; now left].
    + rewrite IH. intuition.
Qed.

Lemma dict_get_some_in {V : Type} (k : string) (v : V) (d : Dict.t V) :
  Dict.get k d = Some v -> In (k, v) d.
Proof.
  induction d as [|[k0 v0] d IH]; simpl; [discriminate|].
  destruct (String.eqb_spec k0 k) as [->|Hk0].
  - intros [= ->]. now left.
  - intros H. right. auto.
Qed.

Lemma dict_in_get {V : Type} (k : string) (v : V) (d : Dict.t V) :
  NoDup (Dict.keys d) -> In (k, v) d -> Dict.get k d = Some v.
Proof.
  unfold Dict.keys. induction d as [|[k0 v0] d IH]; simpl; [tauto|].
  intros Hnd [Heq | Hin].
  - injection Heq as -> ->. now rewrite String.eqb_refl.
  - inversion Hnd as [|? ? Hnotin Hnd']; subst.
    destruct (String.eqb_spec k0 k) as [->|Hk0].
    + exfalso. apply Hnotin. change k with (fst (k, v)). now apply in_map.
    + auto.
Qed.

Lemma dict_keys_set_old {V : Type} (k : string) (v : V) (d : Dict.t V) :
  In k (Dict.keys d) -> Dict.keys (Dict.set k v d) = Dict.keys d.
Proof.
  unfold Dict.keys. induction d as [|[k0 v0] d IH]; simpl; [tauto|].
  intros Hin. destruct (String.eqb_spec k0 k) as [->|Hk0]; simpl.
  - reflexivity.
  - f_equal. apply IH. destruct Hin; [contradiction | assumption].
Qed.

Lemma dict_keys_set_new {V : Type} (k : string) (v : V) (d : Dict.t V) :
  ~ In k (Dict.keys d) -> Dict.keys (Dict.set k v d) = Dict.keys d ++ [k].
Proof.
  unfold Dict.keys. induction d as [|[k0 v0] d IH]; simpl; [reflexivity|].
  intros Hnin. destruct (String.eqb_spec k0 k) as [->|Hk0]; simpl.
  - exfalso. apply Hnin. now left.
  - f_equal. apply IH. intuition.
Qed.

Lemma dict_nodup_set {V : Type} (k : string) (v : V) (d : Dict.t V) :
  NoDup (Dict.keys d) -> NoDup (Dict.keys (Dict.set k v d)).
Proof.
  intros Hnd. destruct (in_dec string_dec k (Dict.keys d)) as [Hin|Hnin].
  - now rewrite dict_keys_set_old.
  - rewrite dict_keys_set_new by assumption.
    apply NoDup_app; [assumption | repeat constructor; intros [] | ].
    intros x Hx [<-|[]]. contradiction.
Qed.

Lemma dict_default_update_same {V : Type} (dflt : V) (k : string) (f : V -> V)
      (d : Dict.t V) :
  Dict.get_default dflt k (Dict.update dflt k f d) = f (Dict.get_default dflt k d).
Proof.
  unfold Dict.update. unfold Dict.get_default at 1. now rewrite dict_get_set_same.
Qed.

Lemma dict_default_update_other {V : Type} (dflt : V) (k k' : string) (f : V -> V)
      (d : Dict.t V) :
  k <> k' ->
  Dict.get_default dflt k' (Dict.update dflt k f d) = Dict.get_default dflt k' d.
Proof.
  intros Hne. unfold Dict.update, Dict.get_default.
  now rewrite dict_get_set_other.
Qed.

Lemma dict_get_update_other {V : Type} (dflt : V) (k k' : string) (f : V -> V)
      (d : Dict.t V) :
  k <> k' -> Dict.get k' (Dict.update dflt k f d) = Dict.get k' d.
Proof. intros Hne. unfold Dict.update. now rewrite dict_get_set_other. Qed.

Lemma dict_in_keys_update {V : Type} (dflt : V) (k x : string) (f : V -> V)
      (d : Dict.t V) :
  In x (Dict.keys (Dict.update dflt k f d)) <-> x = k \/ In x (Dict.keys d).
Proof. unfold Dict.update. apply dict_in_keys_set. Qed.

Lemma dict_nodup_update {V : Type} (dflt : V) (k : string) (f : V -> V) (d : Dict.t V) :
  NoDup (Dict.keys d) -> NoDup (Dict.keys (Dict.update dflt k f d)).
Proof. unfold Dict.update. apply dict_nodup_set. Qed.

Lemma dict_get_default_in {V : Type} (dflt : V) (k : string) (d : Dict.t V) :
  In k (Dict.keys d) -> Dict.get k d = Some (Dict.get_default dflt k d).
Proof.
  intros Hin. unfold Dict.get_default.
  destruct (Dict.get k d) eqn:Hg; [reflexivity|].
  apply dict_get_none in Hg. contradiction.
Qed.

(** Counting loops: [for o in occ: d[key(o)] = f(o, d[key(o)])] on a
    [defaultdict]. *)
Section CountingLoop.
Context {V O : Type} (dflt : V) (key : O -> string) (f : O -> V -> V).

Definition counting_loop (occ : list O) (d : Dict.t V) : Dict.t V :=
  fold_left (fun d o => Dict.update dflt (key o) (f o) d) occ d.

Lemma counting_loop_keys (occ : list O) (d : Dict.t V) (x : string) :
  In x (Dict.keys (counting_loop occ d)) <->
  In x (Dict.keys d) \/ In x (map key occ).
Proof.
  unfold counting_loop. revert d.
  induction occ as [|o occ IH]; intros d; simpl.
  - tauto.
  - rewrite IH, dict_in_keys_update. intuition.
Qed.

Lemma counting_loop_nodup (occ : list O) (d : Dict.t V) :
  NoDup (Dict.keys d) -> NoDup (Dict.keys (counting_loop occ d)).
Proof.
  unfold counting_loop. revert d.
  induction occ as [|o occ IH]; intros d Hd; simpl; [assumption|].
  apply IH. now apply dict_nodup_update.
Qed.

(** The value under [x] only sees the occurrences of [x]. *)
Lemma counting_loop_value (occ : list O) (d : Dict.t V) (x : string) :
  Dict.get_default dflt x (counting_loop occ d) =
  fold_left (fun v o => f o v)
            (filter (fun o => String.eqb (key o) x) occ)
            (Dict.get_default dflt x d).
Proof.
  unfold counting_loop. revert d.
  induction occ as [|o occ IH]; intros d; simpl; [reflexivity|].
  rewrite IH. destruct (String.eqb_spec (key o) x) as [<-|Hne]; simpl.
  - now rewrite dict_default_update_same.
  - now rewrite dict_default_update_other.
Qed.

Lemma counting_loop_length (occ : list O) :
  List.length (counting_loop occ []) = List.length (nodup string_dec (map key occ)).
Proof.
  rewrite <- (length_map fst (counting_loop occ [])).
  apply Permutation_length, NoDup_Permutation.
  - apply (counting_loop_nodup occ []). constructor.
  - apply NoDup_nodup.
  - intros x. rewrite nodup_In.
    change (map fst (counting_loop occ [])) with (Dict.keys (counting_loop occ [])).
    rewrite counting_loop_keys. simpl. tauto.
Qed.

Lemma counting_loop_app (occ1 occ2 : list O) (d : Dict.t V) :
  counting_loop (occ1 ++ occ2) d = counting_loop occ2 (counting_loop occ1 d).
Proof. unfold counting_loop. apply fold_left_app. Qed.

End CountingLoop.

(* ================================================================ *)
(** ** Tokenization                                                   *)
(* ================================================================ *)

(** The lemmas a tag contributes, one per counted occurrence. *)
Definition document_lemmas_of_tag (t : tag) : list string :=
  map stem (filter (fun l => negb (py_isnumeric l))
                   (document_tokens (re_sub_non_alnum (tag_text t)))).

Definition document_lemmas (soup : list tag) : list string :=
  flat_map document_lemmas_of_tag soup.

(** The lemmas a query contributes, one per counted occurrence. *)
Definition query_lemmas (query : string) : list string :=
  map stem (filter (fun l => negb (py_isnumeric l)) (query_tokens query)).

(** Each counted occurrence of a document, with the weight of its tag. *)
Definition occurrences_of_tag (t : tag) : list (string * R) :=
  map (fun l => (l, tag_weight (tag_name t))) (document_lemmas_of_tag t).

Definition occurrences (soup : list tag) : list (string * R) :=
  flat_map occurrences_of_tag soup.

Definition add_occurrence (o : string * R) (d : lemma_data) : lemma_data :=
  mkData (freq d + 1) (data_html_weight d + snd o)%R.

Lemma count_tokens_loop (w : R) (toks : list string) (lemmas : Dict.t lemma_data) :
  fold_left (count_token w) toks lemmas =
  counting_loop (mkData 0 0%R) fst add_occurrence
    (map (fun l => (l, w)) (map stem (filter (fun l => negb (py_isnumeric l)) toks)))
    lemmas.
Proof.
  unfold counting_loop. revert lemmas.
  induction toks as [|tok toks IH]; intros lemmas; simpl; [reflexivity|].
  unfold count_token at 2.
  destruct (py_isnumeric tok); simpl; apply IH.
Qed.

Lemma process_tag_loop (t : tag) (lemmas : Dict.t lemma_data) :
  process_tag lemmas t =
  counting_loop (mkData 0 0%R) fst add_occurrence (occurrences_of_tag t) lemmas.
Proof. unfold process_tag. apply count_tokens_loop. Qed.

Lemma process_tags_loop (soup : list tag) (lemmas : Dict.t lemma_data) :
  fold_left process_tag soup lemmas =
  counting_loop (mkData 0 0%R) fst add_occurrence (occurrences soup) lemmas.
Proof.
  revert lemmas. induction soup as [|t soup IH]; intros lemmas; simpl; [reflexivity|].
  rewrite IH, process_tag_loop.
  unfold occurrences at 2. simpl. now rewrite counting_loop_app.
Qed.

Lemma process_document_loop (soup : list tag) :
  process_document soup =
  counting_loop (mkData 0 0%R) fst add_occurrence (occurrences soup) [].
Proof. apply process_tags_loop. Qed.

Lemma occurrences_lemmas (soup : list tag) :
  map fst (occurrences soup) = document_lemmas soup.
Proof.
  unfold occurrences, document_lemmas.
  induction soup as [|t soup IH]; simpl; [reflexivity|].
  rewrite map_app, IH. f_equal.
  unfold occurrences_of_tag. rewrite map_map. simpl. apply map_id.
Qed.

Lemma tokenize_query_loop (query : string) :
  tokenize_query query =
  counting_loop 0 (fun l : string => l) (fun _ n => n + 1) (query_lemmas query) [].
Proof.
  unfold tokenize_query, query_lemmas, counting_loop.
  generalize (@nil (string * nat)). generalize (query_tokens query).
  induction l as [|tok toks IH]; intros d; simpl; [reflexivity|].
  unfold count_query_token at 2.
  destruct (py_isnumeric tok); simpl; apply IH.
Qed.

Lemma process_document_keys (soup : list tag) (x : string) :
  In x (Dict.keys (process_document soup)) <-> In x (document_lemmas soup).
Proof.
  rewrite process_document_loop, counting_loop_keys, occurrences_lemmas.
  simpl. tauto.
Qed.

Lemma tokenize_query_keys (query : string) (x : string) :
  In x (Dict.keys (tokenize_query query)) <-> In x (query_lemmas query).
Proof.
  rewrite tokenize_query_loop, counting_loop_keys, map_id. simpl. tauto.
Qed.

Lemma process_document_nodup (soup : list tag) :
  NoDup (Dict.keys (process_document soup)).
Proof. rewrite process_document_loop. apply counting_loop_nodup. constructor. Qed.

Lemma tokenize_query_nodup (query : string) :
  NoDup (Dict.keys (tokenize_query query)).
Proof. rewrite tokenize_query_loop. apply counting_loop_nodup. constructor. Qed.

(** C7 (as amended).  A lemma is indexed for a document exactly when some
    token of some tag is not a stop word, is longer than two characters and
    is not purely numeric, and the lemma is its lower-cased stem.  A lemma is
    a query lemma exactly when some token of the query is not purely numeric
    and the lemma is its lower-cased stem: the query side applies neither the
    stop-word nor the length filter, but it does discard numeric tokens. *)
Theorem tokenization_filters :
  (forall (soup : list tag) (x : string),
      In x (Dict.keys (process_document soup)) <->
      exists t tok,
        In t soup /\
        In tok (word_tokenize (re_sub_non_alnum (tag_text t))) /\
        mem (py_lower tok) stopWords = false /\
        2 < String.length tok /\
        py_isnumeric (py_lower tok) = false /\
        x = stem (py_lower tok)) /\
  (forall (query : string) (x : string),
      In x (Dict.keys (tokenize_query query)) <->
      exists tok,
        In tok (word_tokenize (re_sub_non_alnum query)) /\
        py_isnumeric (py_lower tok) = false /\
        x = stem (py_lower tok)).
Proof.
  split.
  - intros soup x. rewrite process_document_keys.
    unfold document_lemmas, document_lemmas_of_tag, document_tokens.
    rewrite in_flat_map. split.
    + intros (t & Ht & Hx).
      apply in_map_iff in Hx as (l & <- & Hl).
      apply filter_In in Hl as (Hl & Hnum).
      apply in_map_iff in Hl as (tok & <- & Htok).
      apply filter_In in Htok as (Htok & Hcond).
      apply andb_true_iff in Hcond as (Hstop & Hlen).
      exists t, tok. repeat split; auto.
      * now apply negb_true_iff.
      * now apply Nat.ltb_lt.
      * now apply negb_true_iff.
    + intros (t & tok & Ht & Htok & Hstop & Hlen & Hnum & ->).
      exists t. split; [assumption|].
      apply in_map, filter_In. split.
      * apply in_map, filter_In. split; [assumption|].
        apply andb_true_iff. split; [now apply negb_true_iff | now apply Nat.ltb_lt].
      * now apply negb_true_iff.
  - intros query x. rewrite tokenize_query_keys.
    unfold query_lemmas, query_tokens. split.
    + intros Hx.
      apply in_map_iff in Hx as (l & <- & Hl).
      apply filter_In in Hl as (Hl & Hnum).
      apply in_map_iff in Hl as (tok & <- & Htok).
      exists tok. repeat split; auto. now apply negb_true_iff.
    + intros (tok & Htok & Hnum & ->).
      apply in_map, filter_In. split; [now apply in_map | now apply negb_true_iff].
Qed.

(* ================================================================ *)
(** ** Occurrence counts and weights                                  *)
(* ================================================================ *)

Lemma py_truediv_ok (x y : R) : y <> 0%R -> py_truediv x y = Ok (x / y)%R.
Proof.
  intros Hy. unfold py_truediv. destruct (Req_dec_T y 0); [contradiction | reflexivity].
Qed.

Lemma py_truediv_zero (x : R) : py_truediv x 0 = Raise ZeroDivisionError.
Proof.
  unfold py_truediv. destruct (Req_dec_T 0 0) as [_|H]; [reflexivity | now destruct H].
Qed.

Lemma py_log_ok (x : R) : (0 < x)%R -> py_log x = Ok (ln x).
Proof.
  intros Hx. unfold py_log. destruct (Rle_dec x 0); [lra | reflexivity].
Qed.

Lemma count_occ_filter (ls : list string) (x : string) :
  count_occ string_dec ls x = List.length (filter (fun o => String.eqb o x) ls).
Proof.
  induction ls as [|l ls IH]; simpl; [reflexivity|].
  destruct (string_dec l x) as [->|Hne].
  - rewrite String.eqb_refl. simpl. now rewrite IH.
  - destruct (String.eqb_spec l x); [contradiction | assumption].
Qed.

Lemma filter_flat_map {A B : Type} (p : B -> bool) (g : A -> list B) (l : list A) :
  filter p (flat_map g l) = flat_map (fun a => filter p (g a)) l.
Proof.
  induction l as [|a l IH]; simpl; [reflexivity|].
  now rewrite filter_app, IH.
Qed.

Lemma Rsum_app (l1 l2 : list R) : Rsum (l1 ++ l2) = (Rsum l1 + Rsum l2)%R.
Proof.
  unfold Rsum. induction l1 as [|x l1 IH]; simpl; [lra|].
  rewrite IH. lra.
Qed.

Lemma Rsum_flat_map {A : Type} (g : A -> list R) (l : list A) :
  Rsum (flat_map g l) = Rsum (map (fun a => Rsum (g a)) l).
Proof.
  induction l as [|a l IH]; simpl; [reflexivity|].
  rewrite Rsum_app, IH. reflexivity.
Qed.

Lemma add_occurrences_total (occ : list (string * R)) (d : lemma_data) :
  fold_left (fun v o => add_occurrence o v) occ d =
  mkData (freq d + List.length occ) (data_html_weight d + Rsum (map snd occ))%R.
Proof.
  revert d. induction occ as [|o occ IH]; intros [n w]; simpl.
  - f_equal; [lia | lra].
  - rewrite IH. unfold add_occurrence. simpl. f_equal; [lia | lra].
Qed.

Lemma occurrences_of_lemma (soup : list tag) (x : string) :
  map fst (filter (fun o => String.eqb (fst o) x) (occurrences soup)) =
  filter (fun l => String.eqb l x) (document_lemmas soup).
Proof.
  rewrite <- occurrences_lemmas.
  induction (occurrences soup) as [|o occ IH]; simpl; [reflexivity|].
  destruct (String.eqb (fst o) x); simpl; now rewrite IH.
Qed.

(** What [process_document] stores under a lemma. *)
Lemma process_document_value (soup : list tag) (x : string) :
  Dict.get_default (mkData 0 0%R) x (process_document soup) =
  mkData (count_occ string_dec (document_lemmas soup) x)
         (Rsum (map snd (filter (fun o => String.eqb (fst o) x) (occurrences soup)))).
Proof.
  rewrite process_document_loop, counting_loop_value, add_occurrences_total.
  unfold Dict.get_default. simpl. f_equal.
  - rewrite count_occ_filter, <- occurrences_of_lemma. now rewrite length_map.
  - lra.
Qed.

Lemma process_document_item (soup : list tag) (x : string) (data : lemma_data) :
  In (x, data) (process_document soup) ->
  data = Dict.get_default (mkData 0 0%R) x (process_document soup).
Proof.
  intros Hin. apply dict_in_get in Hin; [|apply process_document_nodup].
  unfold Dict.get_default. now rewrite Hin.
Qed.

Lemma weight_of_tag_occurrences (t : tag) (x : string) :
  Rsum (map snd (filter (fun o => String.eqb (fst o) x) (occurrences_of_tag t))) =
  (tag_weight (tag_name t) * INR (count_occ string_dec (document_lemmas_of_tag t) x))%R.
Proof.
  unfold occurrences_of_tag.
  induction (document_lemmas_of_tag t) as [|l ls IH].
  - simpl. lra.
  - cbn [map filter fst]. destruct (string_dec l x) as [->|Hne].
    + rewrite String.eqb_refl. cbn [map snd Rsum fold_right].
      fold (Rsum (map snd (filter (fun o : string * R => String.eqb (fst o) x)
              (map (fun l => (l, tag_weight (tag_name t))) ls)))).
      rewrite IH. cbn [count_occ]. destruct (string_dec x x) as [_|Hn]; [|now destruct Hn].
      rewrite S_INR. lra.
    + destruct (String.eqb_spec l x) as [Heq|_]; [contradiction|].
      rewrite IH. cbn [count_occ].
      destruct (string_dec l x) as [Heq|_]; [contradiction | reflexivity].
Qed.

Lemma weight_of_occurrences (soup : list tag) (x : string) :
  Rsum (map snd (filter (fun o => String.eqb (fst o) x) (occurrences soup))) =
  Rsum (map (fun t => (tag_weight (tag_name t) *
                       INR (count_occ string_dec (document_lemmas_of_tag t) x))%R) soup).
Proof.
  unfold occurrences. rewrite filter_flat_map.
  induction soup as [|t soup IH]; simpl; [reflexivity|].
  rewrite map_app, Rsum_app, weight_of_tag_occurrences.
  unfold Rsum in *. simpl. now rewrite IH.
Qed.

(** The posting [add_to_index] pushes for one item of [lemmas]. *)
Definition posting_of (doc_id : string) (total_words : nat) (item : string * lemma_data)
  : string * posting :=
  (fst item,
   mkPosting doc_id (INR (freq (snd item)) / INR total_words)%R
             (data_html_weight (snd item)) None).

Lemma posting_updates_from (doc_id : string) (n : nat) (items : Dict.t lemma_data)
      (acc : list (string * posting)) :
  n <> 0 ->
  for_each
    (fun updates item =>
       let '(l, data) := item in
       let? tf := py_truediv (INR (freq data)) (INR n) in
       Ok (updates ++ [(l, mkPosting doc_id tf (data_html_weight data) None)]))
    items acc
  = Ok (acc ++ map (posting_of doc_id n) items).
Proof.
  intros Hn. revert acc.
  induction items as [|[l data] items IH]; intros acc; simpl.
  - now rewrite app_nil_r.
  - rewrite py_truediv_ok by now apply not_0_INR.
    simpl. rewrite IH, <- app_assoc. reflexivity.
Qed.

Lemma posting_updates_ok (doc_id : string) (lemmas : Dict.t lemma_data) :
  posting_updates doc_id lemmas =
  Ok (map (posting_of doc_id (List.length lemmas)) lemmas).
Proof.
  unfold posting_updates. destruct lemmas as [|item lemmas]; [reflexivity|].
  now rewrite posting_updates_from.
Qed.

(** The html weight as the specification words it: the weight of every tag
    whose kept tokens contain the lemma, each tag once. *)
Definition html_weight_once_per_tag (soup : list tag) (x : string) : R :=
  Rsum (map (fun t => tag_weight (tag_name t))
            (filter (fun t => mem x (document_lemmas_of_tag t)) soup)).

(** C8 (as amended).  The weight table is title 0.6, h1 0.5, h2 0.4, h3 0.3,
    h4 0.2 and 0.1 for every other tag.  The html weight accumulated for a
    lemma, and carried by the posting pushed for it, is the sum over the
    tags of the document of the tag's weight times the number of occurrences
    of the lemma among the tokens kept from that tag: a tag in which the
    lemma occurs twice counts twice. *)
Theorem html_weight_sums_tag_weights :
  (tag_weight "title" = 6 / 10 /\ tag_weight "h1" = 5 / 10 /\ tag_weight "h2" = 4 / 10 /\
   tag_weight "h3" = 3 / 10 /\ tag_weight "h4" = 2 / 10 /\
   forall name, ~ In name ["title"; "h1"; "h2"; "h3"; "h4"] ->
                tag_weight name = 1 / 10)%R /\
  (forall (soup : list tag) (x : string),
      data_html_weight (Dict.get_default (mkData 0 0%R) x (process_document soup)) =
      Rsum (map (fun t => (tag_weight (tag_name t) *
                           INR (count_occ string_dec (document_lemmas_of_tag t) x))%R)
                soup)) /\
  (forall (soup : list tag) (doc_id x : string) (p : posting),
      exists updates,
        posting_updates doc_id (process_document soup) = Ok updates /\
        (In (x, p) updates ->
         html_weight p =
         Rsum (map (fun t => (tag_weight (tag_name t) *
                              INR (count_occ string_dec (document_lemmas_of_tag t) x))%R)
                   soup))).
Proof.
  split; [|split].
  - repeat split; try reflexivity.
    intros name Hname. unfold tag_weight, Dict.get_default, htmlWeights.
    cbn [Dict.get].
    repeat match goal with
           | |- context [String.eqb ?a name] =>
               destruct (String.eqb_spec a name) as [<-|_];
               [exfalso; apply Hname; simpl; tauto|]
           end.
    reflexivity.
  - intros soup x. rewrite process_document_value. simpl.
    apply weight_of_occurrences.
  - intros soup doc_id x p. eexists. split; [apply posting_updates_ok|].
    intros Hin. apply in_map_iff in Hin as ([l data] & Heq & Hin).
    unfold posting_of in Heq. simpl in Heq. injection Heq as -> <-. simpl.
    rewrite (process_document_item _ _ _ Hin), process_document_value. simpl.
    apply weight_of_occurrences.
Qed.

Lemma tokenize_query_value (query : string) (x : string) :
  Dict.get_default 0 x (tokenize_query query) =
  count_occ string_dec (query_lemmas query) x.
Proof.
  rewrite tokenize_query_loop, counting_loop_value, count_occ_filter.
  unfold Dict.get_default. simpl.
  induction (filter (fun o : string => String.eqb o x) (query_lemmas query))
    as [|o l IH] using rev_ind; [reflexivity|].
  rewrite fold_left_app, length_app. simpl. rewrite IH. reflexivity.
Qed.

Lemma tokenize_query_length (query : string) :
  List.length (tokenize_query query) =
  List.length (nodup string_dec (query_lemmas query)).
Proof.
  rewrite tokenize_query_loop, counting_loop_length. now rewrite map_id.
Qed.

Lemma process_document_length (soup : list tag) :
  List.length (process_document soup) =
  List.length (nodup string_dec (document_lemmas soup)).
Proof.
  rewrite process_document_loop, counting_loop_length. now rewrite occurrences_lemmas.
Qed.

(** [d[k] = g(v)] for every item [(k, v)] of a dictionary builds the
    dictionary with the same keys in the same order. *)
Lemma set_each_item {V W : Type} (g : V -> W) (items : Dict.t V) (acc : Dict.t W) :
  NoDup (Dict.keys items) ->
  (forall k, In k (Dict.keys items) -> ~ In k (Dict.keys acc)) ->
  fold_left (fun acc item => Dict.set (fst item) (g (snd item)) acc) items acc =
  acc ++ map (fun item => (fst item, g (snd item))) items.
Proof.
  revert acc. unfold Dict.keys.
  induction items as [|[k v] items IH]; intros acc Hnd Hdisj; simpl.
  - now rewrite app_nil_r.
  - inversion Hnd as [|? ? Hk Hnd']; subst.
    rewrite IH; [| assumption |].
    + assert (Hset : Dict.set k (g v) acc = acc ++ [(k, g v)]).
      { assert (Hk' : ~ In k (map fst acc)) by (apply Hdisj; now left).
        clear -Hk'. induction acc as [|[k0 v0] acc IHa]; simpl; [reflexivity|].
        destruct (String.eqb_spec k0 k) as [->|Hne].
        - exfalso. apply Hk'. now left.
        - f_equal. apply IHa. intros H. apply Hk'. now right. }
      rewrite Hset, <- app_assoc. reflexivity.
    + intros k' Hk' Hin.
      change (map fst (Dict.set k (g v) acc)) with (Dict.keys (Dict.set k (g v) acc)) in Hin.
      apply dict_in_keys_set in Hin as [->|Hin]; [contradiction|].
      apply (Hdisj k'); [now right | assumption].
Qed.

Lemma query_tf_from (n : nat) (items : Dict.t nat) (acc : Dict.t R) :
  n <> 0 ->
  for_each
    (fun query_tfidf item =>
       let '(l, k) := item in
       let? v := py_truediv (INR k) (INR n) in
       Ok (Dict.set l v query_tfidf))
    items acc
  = Ok (fold_left (fun acc item => Dict.set (fst item) (INR (snd item) / INR n)%R acc)
                  items acc).
Proof.
  intros Hn. revert acc.
  induction items as [|[l k] items IH]; intros acc; simpl; [reflexivity|].
  rewrite py_truediv_ok by now apply not_0_INR.
  simpl. apply IH.
Qed.

Lemma query_tf_ok (lemmas : Dict.t nat) :
  NoDup (Dict.keys lemmas) ->
  query_tf lemmas =
  Ok (map (fun item => (fst item, (INR (snd item) / INR (List.length lemmas))%R)) lemmas).
Proof.
  intros Hnd. unfold query_tf. destruct lemmas as [|item lemmas]; [reflexivity|].
  rewrite query_tf_from by discriminate.
  rewrite (set_each_item (fun k => (INR k / INR (List.length (item :: lemmas)))%R));
    auto.
Qed.

Lemma dict_get_map_values {V W : Type} (g : V -> W) (d : Dict.t V) (k : string) :
  Dict.get k (map (fun item => (fst item, g (snd item))) d) =
  option_map g (Dict.get k d).
Proof.
  induction d as [|[k0 v0] d IH]; simpl; [reflexivity|].
  destruct (String.eqb k0 k); [reflexivity | assumption].
Qed.

Lemma dict_keys_map_values {V W : Type} (g : V -> W) (d : Dict.t V) :
  Dict.keys (map (fun item => (fst item, g (snd item))) d) = Dict.keys d.
Proof. unfold Dict.keys. rewrite map_map. reflexivity. Qed.

(** C6.  A posting's tf is the lemma's occurrence count in the document
    divided by the number of distinct lemmas of the document, and a query
    lemma's tf is its count in the query divided by the number of distinct
    lemmas of the query; neither divides by the total number of tokens. *)
Theorem tf_normalised_by_distinct_lemmas :
  (forall (soup : list tag) (doc_id : string),
      exists updates,
        posting_updates doc_id (process_document soup) = Ok updates /\
        (forall l, In l (document_lemmas soup) <-> In l (map fst updates)) /\
        (forall l p, In (l, p) updates ->
           location p = doc_id /\
           tf p = (INR (count_occ string_dec (document_lemmas soup) l) /
                   INR (List.length (nodup string_dec (document_lemmas soup))))%R)) /\
  (forall (query : string),
      exists query_tfidf,
        query_tf (tokenize_query query) = Ok query_tfidf /\
        (forall l, In l (query_lemmas query) <-> In l (Dict.keys query_tfidf)) /\
        (forall l, In l (query_lemmas query) ->
           Dict.get l query_tfidf =
           Some (INR (count_occ string_dec (query_lemmas query) l) /
                 INR (List.length (nodup string_dec (query_lemmas query))))%R)).
Proof.
  split.
  - intros soup doc_id. eexists. split; [apply posting_updates_ok|]. split.
    + intros l. rewrite map_map. simpl.
      change (map (fun x : string * lemma_data => fst x) (process_document soup))
        with (Dict.keys (process_document soup)).
      now rewrite process_document_keys.
    + intros l p Hin. apply in_map_iff in Hin as ([l' data] & Heq & Hin).
      unfold posting_of in Heq. simpl in Heq. injection Heq as -> <-. simpl.
      split; [reflexivity|].
      rewrite (process_document_item _ _ _ Hin), process_document_value. simpl.
      now rewrite process_document_length.
  - intros query. eexists. split; [apply query_tf_ok, tokenize_query_nodup|]. split.
    + intros l.
      rewrite (dict_keys_map_values
                 (fun k => (INR k / INR (List.length (tokenize_query query)))%R)).
      now rewrite tokenize_query_keys.
    + intros l Hl.
      rewrite (dict_get_map_values
                 (fun k => (INR k / INR (List.length (tokenize_query query)))%R)).
      apply tokenize_query_keys in Hl.
      rewrite (dict_get_default_in 0 l _ Hl). simpl.
      now rewrite tokenize_query_value, tokenize_query_length.
Qed.

(* ================================================================ *)
(** ** What a computation may touch                                   *)
(* ================================================================ *)


(** [query_like m]: the outcome of [m] is determined by the collection, and
    [m] leaves the collection as it found it. *)
Definition query_like {A : Type} (m : M A) : Prop :=
  forall s1 s2,
    collection s1 = collection s2 ->
    fst (m s1) = fst (m s2) /\ collection (snd (m s1)) = collection s1.









Lemma query_like_ret {A : Type} (a : A) : query_like (ret a).
Proof. intros s1 s2 H. now split. Qed.

Lemma query_like_raise {A : Type} (e : exn) : query_like (@raise A e).
Proof. intros s1 s2 H. now split. Qed.

Lemma query_like_lift {A : Type} (r : result A) : query_like (lift r).
Proof. intros s1 s2 H. now split. Qed.

Lemma query_like_print (l : line) : query_like (print l).
Proof. intros s1 s2 H. now split. Qed.

Lemma query_like_get_collection : query_like get_collection.
Proof. intros s1 s2 H. simpl. split; [now rewrite H | reflexivity]. Qed.

Lemma query_like_bind {A B : Type} (m : M A) (k : A -> M B) :
  query_like m -> (forall a, query_like (k a)) -> query_like (bind m k).
Proof.
  intros Hm Hk s1 s2 Hc. unfold bind.
  destruct (Hm s1 s2 Hc) as [Hr Hc1].
  destruct (Hm s2 s1 (eq_sym Hc)) as [_ Hc2].
  destruct (m s1) as [r1 s1'], (m s2) as [r2 s2']. simpl in *. subst r2.
  destruct r1 as [a|e]; simpl.
  - destruct (Hk a s1' s2') as [Hr' Hc']; [congruence|].
    split; [assumption | congruence].
  - split; [reflexivity | assumption].
Qed.

Lemma query_like_mapM {X Y : Type} (f : X -> M Y) (xs : list X) :
  (forall x, query_like (f x)) -> query_like (mapM f xs).
Proof.
  intros Hf. induction xs as [|x xs IH]; simpl.
  - apply query_like_ret.
  - apply query_like_bind; [auto|]. intros y.
    apply query_like_bind; [auto|]. intros ys. apply query_like_ret.
Qed.

Lemma get_url_query_like (doc_id : string) : query_like (get_url doc_id).
Proof.
  unfold get_url. destruct (bookkeeping_json E) as [| |data].
  - apply query_like_bind; [apply query_like_print | intros; apply query_like_ret].
  - apply query_like_bind; [apply query_like_print | intros; apply query_like_ret].
  - destruct (Dict.get doc_id data); [apply query_like_ret | apply query_like_raise].
Qed.

Lemma query_index_query_like (self : BasicQuery) (query : string) :
  query_like (query_index self query).
Proof.
  unfold query_index.
  apply query_like_bind; [apply query_like_get_collection|]. intros c.
  apply query_like_bind; [apply query_like_lift|]. intros results.
  apply query_like_bind; [|intros; apply query_like_lift].
  destruct results; [apply query_like_ret|].
  apply query_like_mapM, get_url_query_like.
Qed.

(** C9.  Evaluating the same query text a second time, in the state the
    first evaluation left behind, returns the same outcome (the same ordered
    list of urls, or the same exception): evaluation reads the collection,
    never writes it, and nothing else it touches influences the result.
    More generally, two evaluations in any two states with the same
    collection return the same outcome. *)
Theorem query_index_deterministic (self : BasicQuery) (query : string) (s : state) :
  fst (query_index self query (snd (query_index self query s))) =
  fst (query_index self query s) /\
  collection (snd (query_index self query s)) = collection s /\
  (forall s', collection s' = collection s ->
              fst (query_index self query s') = fst (query_index self query s)).
Proof.
  destruct (query_index_query_like self query s s eq_refl) as [_ Hc].
  split; [now apply query_index_query_like|].
  split; [assumption|].
  intros s' Hs'. now apply query_index_query_like.
Qed.

(* ================================================================ *)
(** ** The build guard                                                *)
(* ================================================================ *)

















(* ================================================================ *)
(** ** Loops that may raise                                           *)
(* ================================================================ *)

(** Which exceptions a result may carry. *)
Definition raises_only {A : Type} (P : exn -> Prop) (r : result A) : Prop :=
  match r with
  | Ok _ => True
  | Raise e => P e
  end.


(** A loop with an iteration that always raises does raise. *)
Lemma for_each_must_raise {A X : Type} (P : exn -> Prop)
      (body : A -> X -> result A) (xs : list X) (acc : A) (x0 : X) :
  In x0 xs ->
  (forall a x, In x xs -> raises_only P (body a x)) ->
  (forall a, exists e, body a x0 = Raise e) ->
  exists e, for_each body xs acc = Raise e /\ P e.
Proof.
  revert acc. induction xs as [|x xs IH]; intros acc Hin Hb Hx0; [contradiction|].
  simpl. pose proof (Hb acc x (or_introl eq_refl)) as Hx.
  destruct (body acc x) as [acc'|e] eqn:Hbx; simpl.
  - destruct Hin as [->|Hin].
    + destruct (Hx0 acc) as [e He]. congruence.
    + apply IH; auto. intros a y Hy. apply Hb. now right.
  - exists e. now split.
Qed.

Lemma for_each_ok_steps {A X : Type} (body : A -> X -> result A) (xs : list X)
      (acc r : A) :
  for_each body xs acc = Ok r ->
  forall x, In x xs -> exists a a', body a x = Ok a'.
Proof.
  revert acc. induction xs as [|x xs IH]; intros acc Hok y Hy; [contradiction|].
  simpl in Hok. destruct (body acc x) as [acc'|e] eqn:Hbx; simpl in Hok; [|discriminate].
  destruct Hy as [<-|Hy]; [now exists acc, acc' | eauto].
Qed.

Lemma for_each_invariant {A X : Type} (Inv : A -> Prop)
      (body : A -> X -> result A) (xs : list X) (acc r : A) :
  Inv acc ->
  (forall a x a', In x xs -> Inv a -> body a x = Ok a' -> Inv a') ->
  for_each body xs acc = Ok r ->
  Inv r.
Proof.
  revert acc. induction xs as [|x xs IH]; intros acc Hacc Hstep Hok; simpl in Hok.
  - now injection Hok as <-.
  - destruct (body acc x) as [acc'|e] eqn:Hbx; simpl in Hok; [|discriminate].
    apply (IH acc'); auto.
    + apply (Hstep acc x); auto. now left.
    + intros a y a' Hy. apply Hstep. now right.
Qed.

Lemma dict_keys_update_old {V : Type} (dflt : V) (k : string) (f : V -> V) (d : Dict.t V) :
  In k (Dict.keys d) -> Dict.keys (Dict.update dflt k f d) = Dict.keys d.
Proof. unfold Dict.update. apply dict_keys_set_old. Qed.

(* ================================================================ *)
(** ** Query weights                                                  *)
(* ================================================================ *)

Lemma INR_pos_length {A : Type} (l : list A) : l <> [] -> (0 < INR (List.length l))%R.
Proof.
  intros Hl. destruct l as [|a l]; [contradiction|].
  apply lt_0_INR. simpl. lia.
Qed.

Lemma log_ratio_ok (self : BasicQuery) (postings_list : list posting) :
  0 < total_docs self -> postings_list <> [] ->
  log_ratio self postings_list =
  Ok (ln (INR (total_docs self) / INR (List.length postings_list))).
Proof.
  intros Ht Hp. unfold log_ratio.
  pose proof (INR_pos_length _ Hp) as Hlen.
  rewrite py_truediv_ok by lra. simpl.
  apply py_log_ok. apply Rdiv_lt_0_compat; [now apply lt_0_INR | assumption].
Qed.

(** With as many postings as there are documents the logarithm is [ln 1]. *)
Lemma log_ratio_saturated (self : BasicQuery) (postings_list : list posting) :
  postings_list <> [] ->
  List.length postings_list = total_docs self ->
  log_ratio self postings_list = Ok 0%R.
Proof.
  intros Hp Hlen. pose proof (INR_pos_length _ Hp) as Hpos.
  rewrite log_ratio_ok; [| rewrite <- Hlen; destruct postings_list; simpl; [contradiction | lia]
                         | assumption].
  rewrite <- Hlen. f_equal.
  replace (INR (List.length postings_list) / INR (List.length postings_list))%R with 1%R
    by (field; lra).
  apply ln_1.
Qed.

Lemma postings_of_absent (c : store) (l : string) :
  find_one l c = None -> postings_of c l = Raise TypeError.
Proof. intros H. unfold postings_of. now rewrite H. Qed.

Lemma weigh_query_keys (self : BasicQuery) (c : store) (d d' : Dict.t R) :
  weigh_query self c d = Ok d' -> Dict.keys d' = Dict.keys d.
Proof.
  unfold weigh_query. intros Hok.
  apply (for_each_invariant (fun a => Dict.keys a = Dict.keys d)) in Hok; auto.
  intros a l a' Hl Ha Hstep.
  destruct (postings_of c l) as [ps|]; simpl in Hstep; [|discriminate].
  destruct (match ps with [] => Ok 0%R | _ :: _ => log_ratio self ps end);
    simpl in Hstep; [|discriminate].
  injection Hstep as <-. rewrite dict_keys_update_old; congruence.
Qed.

Lemma weigh_query_rows (self : BasicQuery) (c : store) (d d' : Dict.t R) (l : string) :
  weigh_query self c d = Ok d' -> In l (Dict.keys d) ->
  exists postings_list, postings_of c l = Ok postings_list.
Proof.
  unfold weigh_query. intros Hok Hl.
  destruct (for_each_ok_steps _ _ _ _ Hok l Hl) as (a & a' & Hstep).
  destruct (postings_of c l) as [ps|]; simpl in Hstep; [eauto | discriminate].
Qed.

Lemma query_tf_keys (lemmas : Dict.t nat) (d : Dict.t R) :
  NoDup (Dict.keys lemmas) -> query_tf lemmas = Ok d -> Dict.keys d = Dict.keys lemmas.
Proof.
  intros Hnd. rewrite query_tf_ok by assumption. intros [= <-].
  apply (dict_keys_map_values (fun k => (INR k / INR (List.length lemmas))%R)).
Qed.

(** The lemmas [process_query] weighs are the lemmas of the query, and each
    of them has a term row whenever [process_query] returns. *)
Lemma process_query_keys (self : BasicQuery) (c : store) (query : string)
      (query_tfidf : Dict.t R) (vector_length : R) :
  process_query self c query = Ok (query_tfidf, vector_length) ->
  Dict.keys query_tfidf = Dict.keys (tokenize_query query) /\
  forall l, In l (Dict.keys query_tfidf) ->
            exists postings_list, postings_of c l = Ok postings_list.
Proof.
  unfold process_query. intros Hok.
  destruct (query_tf (tokenize_query query)) as [d|] eqn:Htf; simpl in Hok; [|discriminate].
  destruct (weigh_query self c d) as [d'|] eqn:Hw; simpl in Hok; [|discriminate].
  injection Hok as <- _.
  pose proof (weigh_query_keys _ _ _ _ Hw) as Hk.
  pose proof (query_tf_keys _ _ (tokenize_query_nodup query) Htf) as Hk'.
  split; [congruence|].
  intros l Hl. apply (weigh_query_rows _ _ _ _ _ Hw). congruence.
Qed.

Lemma weigh_query_absent (P : exn -> Prop) (self : BasicQuery) (c : store)
      (d : Dict.t R) (l : string) :
  In l (Dict.keys d) -> find_one l c = None ->
  P TypeError ->
  (forall ps, ps <> [] -> raises_only P (log_ratio self ps)) ->
  exists e, weigh_query self c d = Raise e /\ P e.
Proof.
  intros Hl Habs HP Hlog. unfold weigh_query.
  apply for_each_must_raise with (x0 := l); [assumption | |].
  - intros a x _. unfold postings_of.
    destruct (find_one x c) as [row|]; simpl; [|assumption].
    destruct (docs row) as [|p ps] eqn:Hd; simpl; [exact I|].
    specialize (Hlog (p :: ps)).
    destruct (log_ratio self (p :: ps)); simpl; [exact I|].
    apply Hlog. discriminate.
  - intros a. exists TypeError. now rewrite postings_of_absent.
Qed.

(** C2 (what the code does).  A query with a lemma that has no term row
    does not evaluate: [find_one] returns [None], subscripting it raises,
    and [calculate_cosine_similarity] ends with an exception - with
    [TypeError] whenever the engine was built on a store with documents. *)
Theorem absent_lemma_raises (self : BasicQuery) (c : store) (query l : string) :
  In l (query_lemmas query) -> find_one l c = None ->
  (exists e, calculate_cosine_similarity self c query = Raise e) /\
  (0 < total_docs self -> calculate_cosine_similarity self c query = Raise TypeError).
Proof.
  intros Hl Habs. apply tokenize_query_keys in Hl.
  unfold calculate_cosine_similarity, final_scores, process_query.
  rewrite query_tf_ok by apply tokenize_query_nodup. cbn [rbind].
  set (d := map _ (tokenize_query query)).
  assert (Hd : In l (Dict.keys d)).
  { unfold d.
    rewrite (dict_keys_map_values
               (fun k => (INR k / INR (List.length (tokenize_query query)))%R)).
    assumption. }
  split.
  - destruct (weigh_query_absent (fun _ => True) self c d l Hd Habs I) as (e & He & _).
    + intros ps _. destruct (log_ratio self ps); exact I.
    + exists e. now rewrite He.
  - intros Ht.
    destruct (weigh_query_absent (eq TypeError) self c d l Hd Habs eq_refl) as (e & He & <-).
    + intros ps Hps. now rewrite log_ratio_ok.
    + now rewrite He.
Qed.

Lemma score_posting_saturated (self : BasicQuery) (l : string)
      (postings_list : list posting) (acc : accumulators) (doc : posting) :
  postings_list <> [] ->
  List.length postings_list = total_docs self ->
  score_posting self l postings_list acc doc = Raise ZeroDivisionError.
Proof.
  intros Hp Hlen. unfold score_posting.
  rewrite log_ratio_saturated by assumption. simpl.
  now rewrite py_truediv_zero.
Qed.



(* ================================================================ *)
(** ** Resolving urls                                                 *)
(* ================================================================ *)

(** [get_url] does not produce a url for the document: the bookkeeping file
    is missing or corrupt, or it has no entry for the document. *)
Definition resolution_fails (doc_id : string) : Prop :=
  match bookkeeping_json E with
  | FileJson data => Dict.get doc_id data = None
  | FileCorrupt | FileMissing => True
  end.

Lemma format_urls_from_none (urls : list (option string)) (acc : list string) :
  In None urls ->
  for_each
    (fun full_urls url =>
       match url with
       | None => Raise AttributeError
       | Some u =>
           if negb (String.prefix "http://" u) && negb (String.prefix "https://" u)
           then Ok (full_urls ++ [String.append "http://" u])
           else Ok (full_urls ++ [u])
       end)
    urls acc
  = Raise AttributeError.
Proof.
  revert acc. induction urls as [|[u|] urls IH]; intros acc Hin; simpl.
  - contradiction.
  - destruct Hin as [Heq|Hin]; [discriminate|].
    destruct (negb (String.prefix "http://" u) && negb (String.prefix "https://" u));
      simpl; now apply IH.
  - reflexivity.
Qed.

Lemma format_urls_none (urls : list (option string)) :
  In None urls -> format_urls urls = Raise AttributeError.
Proof. apply format_urls_from_none. Qed.

Lemma mapM_get_url_unreadable (results : list string) (s : state) :
  (forall data, bookkeeping_json E <> FileJson data) ->
  exists s', mapM get_url results s = (Ok (map (fun _ => None) results), s').
Proof.
  intros Hfile. revert s. induction results as [|d results IH]; intros s; simpl.
  - now exists s.
  - unfold bind at 1. unfold get_url at 1.
    destruct (bookkeeping_json E) as [| |data] eqn:Hb.
    + unfold bind at 1, print at 1, ret at 1. unfold bind at 1.
      match goal with |- context [mapM get_url results ?s1] =>
        destruct (IH s1) as [s' ->] end.
      eexists. reflexivity.
    + unfold bind at 1, print at 1, ret at 1. unfold bind at 1.
      match goal with |- context [mapM get_url results ?s1] =>
        destruct (IH s1) as [s' ->] end.
      eexists. reflexivity.
    + now destruct (Hfile data).
Qed.

Lemma mapM_get_url_missing (data : Dict.t string) (results : list string)
      (doc_id : string) (s : state) :
  bookkeeping_json E = FileJson data ->
  In doc_id results -> Dict.get doc_id data = None ->
  mapM get_url results s = (Raise KeyError, s).
Proof.
  intros Hb Hin Hnone. induction results as [|d results IH]; [contradiction|].
  simpl. unfold bind at 1. unfold get_url at 1. rewrite Hb.
  destruct (Dict.get d data) as [url|] eqn:Hd.
  - destruct Hin as [->|Hin]; [congruence|].
    unfold ret at 1. unfold bind at 1. now rewrite IH.
  - reflexivity.
Qed.

(** C3 (what the code does).  When the ranking contains a document whose
    url cannot be resolved, [query_index] does not return a list without
    it: a missing entry raises [KeyError] in [get_url], and for a missing
    or corrupt file [get_url] returns [None], on which [format_urls] raises
    [AttributeError]. *)
Theorem unresolved_document_raises
        (self : BasicQuery) (query : string) (s : state)
        (results : list string) (doc_id : string) :
  calculate_cosine_similarity self (collection s) query = Ok results ->
  In doc_id results ->
  resolution_fails doc_id ->
  exists e s',
    query_index self query s = (Raise e, s') /\
    (e = KeyError \/ e = AttributeError).
Proof.
  intros Hres Hin Hfail.
  unfold query_index, bind at 1, get_collection.
  unfold bind at 1, lift at 1. rewrite Hres.
  destruct results as [|r results]; [contradiction|].
  unfold resolution_fails in Hfail. unfold bind at 1.
  destruct (bookkeeping_json E) as [| |data] eqn:Hb.
  - destruct (mapM_get_url_unreadable (r :: results) s) as [s' Hm];
      [rewrite Hb; discriminate|].
    rewrite Hm. exists AttributeError, s'. split; [|now right].
    unfold lift. now rewrite format_urls_none by now left.
  - destruct (mapM_get_url_unreadable (r :: results) s) as [s' Hm];
      [rewrite Hb; discriminate|].
    rewrite Hm. exists AttributeError, s'. split; [|now right].
    unfold lift. now rewrite format_urls_none by now left.
  - rewrite (mapM_get_url_missing data (r :: results) doc_id s Hb Hin Hfail).
    exists KeyError, s. split; [reflexivity | now left].
Qed.

(* ================================================================ *)
(** ** Phase 2: the tf-idf backfill                                   *)
(* ================================================================ *)

(** The data-model invariants of the store: one row per lemma, and at most
    one posting per document in a postings list. *)
Definition store_wf (c : store) : Prop :=
  NoDup (map lemma c) /\
  forall r, In r c -> NoDup (map location (docs r)).

Definition idf_value (total_docs df : nat) : R :=
  if 0 <? df then ln (INR total_docs / INR df) else 0%R.

Definition backfilled (idf : R) (p : posting) : posting :=
  mkPosting (location p) (tf p) (html_weight p) (Some (tf p * idf)%R).

Definition backfill_row (total_docs : nat) (r : term_row) : term_row :=
  mkRow (lemma r)
        (map (backfilled (idf_value total_docs (List.length (docs r)))) (docs r)).

Lemma idf_of_ok (total_docs df : nat) :
  (0 < df -> 0 < total_docs) ->
  idf_of total_docs df = Ok (idf_value total_docs df).
Proof.
  intros Ht. unfold idf_of, idf_value. destruct (Nat.ltb_spec 0 df) as [Hdf|_]; [|reflexivity].
  assert (0 < INR df)%R by now apply lt_0_INR.
  assert (0 < INR total_docs)%R by (apply lt_0_INR; auto).
  rewrite py_truediv_ok by lra. simpl.
  apply py_log_ok. now apply Rdiv_lt_0_compat.
Qed.

Lemma tf_idf_updates_run (l : string) (idf : R) (ps : list posting) (s : state) :
  exists out,
    tf_idf_updates l idf ps s =
    (Ok (map (fun doc => (l, location doc, (tf doc * idf)%R)) ps),
     mkState (collection s) (num_documents s) out (analytics_txt s)).
Proof.
  unfold tf_idf_updates. revert s.
  induction ps as [|doc ps IH]; intros s; cbn [mapM map].
  - exists (stdout s). now destruct s.
  - unfold bind at 1. unfold bind at 1. unfold print at 1. unfold ret at 1.
    unfold bind at 1.
    match goal with |- context [mapM ?f ps ?s1] => destruct (IH s1) as [out ->] end.
    exists out. reflexivity.
Qed.

Lemma set_first_tf_idf_fresh (loc : string) (v : R) (done rest : list posting)
      (p : posting) :
  ~ In loc (map location done) -> location p = loc ->
  set_first_tf_idf loc v (done ++ p :: rest) =
  done ++ mkPosting (location p) (tf p) (html_weight p) (Some v) :: rest.
Proof.
  intros Hfresh Hp. induction done as [|q done IH]; simpl.
  - rewrite Hp, String.eqb_refl. reflexivity.
  - destruct (String.eqb_spec (location q) loc) as [Heq|_].
    + exfalso. apply Hfresh. now left.
    + f_equal. apply IH. intros H. apply Hfresh. now right.
Qed.

Lemma set_tf_idf_at (l loc : string) (v : R) (pre rest : store) (r : term_row) :
  (forall r', In r' pre -> lemma r' <> l) ->
  lemma r = l -> has_location loc (docs r) = true ->
  set_tf_idf l loc v (pre ++ r :: rest) =
  pre ++ mkRow (lemma r) (set_first_tf_idf loc v (docs r)) :: rest.
Proof.
  intros Hpre Hl Hloc. induction pre as [|r' pre IH]; simpl.
  - now rewrite Hl, String.eqb_refl, Hloc.
  - destruct (String.eqb_spec (lemma r') l) as [Heq|_].
    + exfalso. apply (Hpre r'); [now left | assumption].
    + simpl. f_equal. apply IH. intros r0 H0. apply Hpre. now right.
Qed.

(** The [$set]s issued for one row, applied in order, fill in the row. *)
Lemma bulk_set_row (l : string) (idf : R) (pre rest : store)
      (done todo : list posting) :
  (forall r', In r' pre -> lemma r' <> l) ->
  NoDup (map location (done ++ todo)) ->
  fold_left (fun c u => set_tf_idf (fst (fst u)) (snd (fst u)) (snd u) c)
            (map (fun doc => (l, location doc, (tf doc * idf)%R)) todo)
            (pre ++ mkRow l (map (backfilled idf) done ++ todo) :: rest) =
  pre ++ mkRow l (map (backfilled idf) (done ++ todo)) :: rest.
Proof.
  intros Hpre. revert done.
  induction todo as [|p todo IH]; intros done Hnd; cbn [map fold_left fst snd].
  - now rewrite !app_nil_r.
  - rewrite set_tf_idf_at; [| assumption | reflexivity |].
    + cbn [lemma docs]. rewrite set_first_tf_idf_fresh; [| | reflexivity].
      * specialize (IH (done ++ [p])).
        replace ((done ++ [p]) ++ todo) with (done ++ p :: todo) in IH
          by now rewrite <- app_assoc.
        replace (map (backfilled idf) (done ++ [p]) ++ todo)
          with (map (backfilled idf) done ++ backfilled idf p :: todo) in IH
          by (rewrite map_app, <- app_assoc; reflexivity).
        now apply IH.
      * rewrite map_map. cbn [backfilled location].
        rewrite map_app in Hnd. cbn [map] in Hnd.
        apply NoDup_remove_2 in Hnd. intros H. apply Hnd.
        apply in_or_app. now left.
    + cbn [docs]. unfold has_location. apply existsb_exists. exists p. split.
      * apply in_or_app. right. now left.
      * apply String.eqb_refl.
Qed.

Lemma backfill_row_lemma (total_docs : nat) (r : term_row) :
  lemma (backfill_row total_docs r) = lemma r.
Proof. reflexivity. Qed.

Lemma term_row_eta (r : term_row) : r = mkRow (lemma r) (docs r).
Proof. now destruct r. Qed.

Lemma bulk_set_nil : bulk_set [] = print (Text "Error calculating tf_idf:").
Proof. reflexivity. Qed.

Lemma bulk_set_run {X : Type} (g : X -> string * string * R) (xs : list X) (s : state) :
  xs <> [] ->
  bulk_set (map g xs) s =
  (Ok tt,
   mkState (fold_left (fun c u => set_tf_idf (fst (fst u)) (snd (fst u)) (snd u) c)
                      (map g xs) (collection s))
           (num_documents s) (stdout s) (analytics_txt s)).
Proof.
  intros Hxs. destruct xs as [|x xs]; [contradiction|]. reflexivity.
Qed.

(** The loop of [calculate_tf_idf] over the rows still to visit. *)
Lemma backfill_loop (total_docs : nat) (done todo : store) (s : state) :
  NoDup (map lemma (done ++ todo)) ->
  (forall r, In r todo -> NoDup (map location (docs r))) ->
  (forall r, In r todo -> docs r <> [] -> 0 < total_docs) ->
  collection s = map (backfill_row total_docs) done ++ todo ->
  exists out,
    forM_ (fun entry =>
             let df := List.length (docs entry) in
             idf <- lift (idf_of total_docs df) ;;
             updates <- tf_idf_updates (lemma entry) idf (docs entry) ;;
             bulk_set updates)
          todo s
    = (Ok tt,
       mkState (map (backfill_row total_docs) (done ++ todo))
               (num_documents s) out (analytics_txt s)).
Proof.
  revert done s. induction todo as [|r todo IH]; intros done s Hnd Hloc Htot Hc.
  - simpl. exists (stdout s). rewrite app_nil_r in *. rewrite <- Hc. now destruct s.
  - cbn [forM_]. unfold bind at 1. unfold bind at 1. unfold lift at 1.
    rewrite idf_of_ok.
    2:{ intros Hdf. apply (Htot r); [now left|]. intros Hd. rewrite Hd in Hdf.
        simpl in Hdf. lia. }
    unfold bind at 1.
    destruct (tf_idf_updates_run (lemma r)
                (idf_value total_docs (List.length (docs r))) (docs r) s) as [out1 ->].
    set (idf := idf_value total_docs (List.length (docs r))).
    assert (Hnext : forall s1,
               collection s1 = map (backfill_row total_docs) (done ++ [r]) ++ todo ->
               exists out,
                 forM_ (fun entry =>
                          let df := List.length (docs entry) in
                          idf <- lift (idf_of total_docs df) ;;
                          updates <- tf_idf_updates (lemma entry) idf (docs entry) ;;
                          bulk_set updates)
                       todo s1
                 = (Ok tt,
                    mkState (map (backfill_row total_docs) (done ++ r :: todo))
                            (num_documents s1) out (analytics_txt s1))).
    { intros s1 Hs1.
      destruct (IH (done ++ [r]) s1) as [out Hout]; auto.
      - now rewrite <- app_assoc.
      - intros r0 H0. apply Hloc. now right.
      - intros r0 H0. apply Htot. now right.
      - exists out. rewrite Hout. now rewrite <- app_assoc. }
    assert (Hrow : map (backfill_row total_docs) (done ++ [r]) ++ todo =
                   map (backfill_row total_docs) done ++
                   mkRow (lemma r) (map (backfilled idf) (docs r)) :: todo).
    { rewrite map_app, <- app_assoc. reflexivity. }
    destruct (docs r) as [|p ps] eqn:Hdocs.
    + cbn [map]. rewrite bulk_set_nil. unfold print at 1.
      match goal with |- context [forM_ _ todo ?s1] =>
        destruct (Hnext s1) as [out Hout] end.
      { cbn [collection]. rewrite Hc, Hrow. destruct r; simpl in *.
        now subst. }
      exists out. exact Hout.
    + rewrite <- Hdocs.
      rewrite bulk_set_run by (rewrite Hdocs; discriminate).
      cbn [collection num_documents stdout analytics_txt].
      rewrite Hc. rewrite <- Hdocs in Hrow.
      replace (map (backfill_row total_docs) done ++ r :: todo)
        with (map (backfill_row total_docs) done ++
              mkRow (lemma r) (map (backfilled idf) [] ++ docs r) :: todo)
        by (cbn [map app]; now rewrite <- term_row_eta).
      rewrite bulk_set_row.
      * match goal with |- context [forM_ _ todo ?s1] =>
          destruct (Hnext s1) as [out Hout] end.
        { cbn [collection]. now rewrite Hrow. }
        exists out. exact Hout.
      * intros r' Hr'. apply in_map_iff in Hr' as (r0 & <- & Hr0).
        rewrite backfill_row_lemma. rewrite map_app in Hnd. simpl in Hnd.
        apply NoDup_remove_2 in Hnd. intros Heq. apply Hnd.
        apply in_or_app. left. rewrite <- Heq. now apply in_map.
      * simpl. apply Hloc. now left.
Qed.

Lemma distinct_locations_pos (c : store) (r : term_row) :
  In r c -> docs r <> [] -> 0 < List.length (distinct_locations c).
Proof.
  intros Hr Hd. destruct (docs r) as [|p ps] eqn:Hdocs; [contradiction|].
  assert (Hin : In (location p) (distinct_locations c)).
  { unfold distinct_locations. apply nodup_In, in_flat_map.
    exists r. split; [assumption|]. rewrite Hdocs. now left. }
  destruct (distinct_locations c); [contradiction | simpl; lia].
Qed.


Lemma calculate_tf_idf_run (s : state) :
  store_wf (collection s) ->
  exists out,
    calculate_tf_idf s =
    (Ok tt,
     mkState (map (backfill_row (List.length (distinct_locations (collection s))))
                  (collection s))
             (num_documents s) out (analytics_txt s)).
Proof.
  intros [Hrows Hlocs]. unfold calculate_tf_idf.
  unfold bind at 1, get_collection at 1. unfold bind at 1.
  destruct (backfill_loop (List.length (distinct_locations (collection s)))
                          [] (collection s) s) as [out Hout]; auto.
  - intros r Hr Hd. now apply (distinct_locations_pos _ r).
  - cbv zeta in Hout. rewrite Hout. eexists. reflexivity.
Qed.



(* ================================================================ *)
(** ** Scoring                                                        *)
(* ================================================================ *)

(** The tf-idf the scoring loop uses for a posting: the stored one, or the
    fallback [tf / ln(total_docs / df)]. *)
Definition resolved_tf_idf (self : BasicQuery) (postings_list : list posting)
           (doc : posting) : R :=
  match tf_idf doc with
  | Some v => v
  | None =>
      (tf doc / ln (INR (total_docs self) / INR (List.length postings_list)))%R
  end.

(** One iteration of the inner scoring loop that did not raise. *)
Record hit : Type := mkHit {
  hit_lemma : string;
  hit_doc : string;
  hit_tf_idf : R;
  hit_html_weight : R;
}.

Definition hit_of (self : BasicQuery) (l : string) (postings_list : list posting)
           (doc : posting) : hit :=
  mkHit l (location doc) (resolved_tf_idf self postings_list doc) (html_weight doc).

Definition hits_of_lemma (self : BasicQuery) (c : store) (l : string) : list hit :=
  match find_one l c with
  | Some row => map (hit_of self l (docs row)) (docs row)
  | None => []
  end.

Definition hits (self : BasicQuery) (c : store) (lemmas : list string) : list hit :=
  flat_map (hits_of_lemma self c) lemmas.

Definition record_hit (acc : accumulators) (h : hit) : accumulators :=
  mkAcc (Dict.update [] (hit_doc h) (Dict.set (hit_lemma h) (hit_tf_idf h))
                     (doc_vectors acc))
        (Dict.update 0%R (hit_doc h) (fun s => (s + hit_html_weight h / 10000)%R)
                     (scores acc)).

Lemma log_ratio_value (self : BasicQuery) (postings_list : list posting) (lr : R) :
  log_ratio self postings_list = Ok lr ->
  lr = ln (INR (total_docs self) / INR (List.length postings_list)).
Proof.
  unfold log_ratio, py_truediv, py_log.
  destruct (Req_dec_T _ 0); simpl; [discriminate|].
  destruct (Rle_dec _ 0); [discriminate|]. now intros [= <-].
Qed.

Lemma score_posting_ok (self : BasicQuery) (l : string) (postings_list : list posting)
      (acc acc' : accumulators) (doc : posting) :
  score_posting self l postings_list acc doc = Ok acc' ->
  acc' = record_hit acc (hit_of self l postings_list doc).
Proof.
  unfold score_posting. intros Hok.
  destruct (log_ratio self postings_list) as [lr|] eqn:Hlr; simpl in Hok; [|discriminate].
  apply log_ratio_value in Hlr. subst lr.
  unfold py_truediv in Hok. destruct (Req_dec_T _ 0); simpl in Hok; [discriminate|].
  injection Hok as <-. reflexivity.
Qed.

Lemma score_list_ok (self : BasicQuery) (l : string) (postings_list ps : list posting)
      (acc acc' : accumulators) :
  for_each (score_posting self l postings_list) ps acc = Ok acc' ->
  acc' = fold_left record_hit (map (hit_of self l postings_list) ps) acc.
Proof.
  revert acc. induction ps as [|doc ps IH]; intros acc Hok; simpl in *.
  - now injection Hok as <-.
  - destruct (score_posting self l postings_list acc doc) as [acc1|] eqn:H1;
      simpl in Hok; [|discriminate].
    apply score_posting_ok in H1. subst acc1. now apply IH.
Qed.

Lemma score_lemmas_ok (self : BasicQuery) (c : store) (lemmas : list string)
      (acc acc' : accumulators) :
  for_each
    (fun acc l =>
       let? postings_list := postings_of c l in
       for_each (score_posting self l postings_list) postings_list acc)
    lemmas acc = Ok acc' ->
  acc' = fold_left record_hit (hits self c lemmas) acc.
Proof.
  revert acc. induction lemmas as [|l lemmas IH]; intros acc Hok; simpl in *.
  - now injection Hok as <-.
  - unfold postings_of, hits_of_lemma in *.
    destruct (find_one l c) as [row|]; simpl in Hok; [|discriminate].
    destruct (for_each (score_posting self l (docs row)) (docs row) acc) as [acc1|] eqn:H1;
      simpl in Hok; [|discriminate].
    apply score_list_ok in H1. subst acc1.
    rewrite fold_left_app. now apply IH.
Qed.

Lemma score_postings_ok (self : BasicQuery) (c : store) (query_tfidf : Dict.t R)
      (acc : accumulators) :
  score_postings self c query_tfidf = Ok acc ->
  acc = fold_left record_hit (hits self c (Dict.keys query_tfidf)) (mkAcc [] []).
Proof. apply score_lemmas_ok. Qed.

(** The two accumulators are two counting loops over the same hits. *)
Lemma record_hits_loops (hs : list hit) (acc : accumulators) :
  fold_left record_hit hs acc =
  mkAcc (counting_loop [] hit_doc (fun h => Dict.set (hit_lemma h) (hit_tf_idf h))
                       hs (doc_vectors acc))
        (counting_loop 0%R hit_doc (fun h s => (s + hit_html_weight h / 10000)%R)
                       hs (scores acc)).
Proof.
  unfold counting_loop. revert acc.
  induction hs as [|h hs IH]; intros acc; simpl; [now destruct acc|].
  now rewrite IH.
Qed.

Lemma fold_left_Rsum {X : Type} (g : X -> R) (l : list X) (v0 : R) :
  fold_left (fun v x => (v + g x)%R) l v0 = (v0 + Rsum (map g l))%R.
Proof.
  revert v0. induction l as [|x l IH]; intros v0; simpl.
  - unfold Rsum. simpl. lra.
  - rewrite IH. unfold Rsum. simpl. lra.
Qed.

Lemma dict_set_new {V : Type} (k : string) (v : V) (d : Dict.t V) :
  ~ In k (Dict.keys d) -> Dict.set k v d = d ++ [(k, v)].
Proof.
  unfold Dict.keys. induction d as [|[k0 v0] d IH]; simpl; intros Hk; [reflexivity|].
  destruct (String.eqb_spec k0 k) as [->|Hne].
  - exfalso. apply Hk. now left.
  - f_equal. apply IH. intros H. apply Hk. now right.
Qed.

Lemma set_each_fresh {X V : Type} (key : X -> string) (val : X -> V)
      (l : list X) (acc : Dict.t V) :
  NoDup (map key l) ->
  (forall x, In x l -> ~ In (key x) (Dict.keys acc)) ->
  fold_left (fun d x => Dict.set (key x) (val x) d) l acc =
  acc ++ map (fun x => (key x, val x)) l.
Proof.
  revert acc. induction l as [|x l IH]; intros acc Hnd Hfresh; simpl.
  - now rewrite app_nil_r.
  - inversion Hnd as [|? ? Hx Hnd']; subst.
    rewrite dict_set_new by (apply Hfresh; now left).
    rewrite IH; [now rewrite <- app_assoc | assumption |].
    intros y Hy Hin. unfold Dict.keys in Hin. rewrite map_app in Hin.
    apply in_app_or in Hin as [Hin|[Heq|[]]].
    + apply (Hfresh y); [now right | assumption].
    + simpl in Heq. apply Hx. rewrite Heq. now apply in_map.
Qed.

Lemma filter_key_nodup {V : Type} (k : string) (d : Dict.t V) :
  NoDup (Dict.keys d) ->
  filter (fun item => String.eqb (fst item) k) d =
  match Dict.get k d with
  | Some v => [(k, v)]
  | None => []
  end.
Proof.
  unfold Dict.keys. induction d as [|[k0 v0] d IH]; simpl; intros Hnd; [reflexivity|].
  inversion Hnd as [|? ? Hk0 Hnd']; subst.
  destruct (String.eqb_spec k0 k) as [->|Hne].
  - f_equal. rewrite IH by assumption.
    destruct (Dict.get k d) eqn:Hg; [|reflexivity].
    exfalso. apply Hk0. apply dict_get_some_in in Hg.
    change k with (fst (k, v)). now apply in_map.
  - now apply IH.
Qed.

(** The inner loop of lines 116-117. *)
Definition cosine (query_tfidf : Dict.t R) (data : Dict.t R) : R :=
  fold_left (fun cs lv => (cs + Dict.get_default 0 (fst lv) query_tfidf * snd lv)%R)
            data 0%R.

Lemma add_cosine_loop (query_tfidf : Dict.t R) (dv : Dict.t (Dict.t R)) (sc : Dict.t R) :
  add_cosine query_tfidf dv sc =
  counting_loop 0%R fst (fun item s => (s + cosine query_tfidf (snd item))%R) dv sc.
Proof.
  unfold add_cosine, counting_loop. revert sc.
  induction dv as [|[d data] dv IH]; intros sc; simpl; [reflexivity|].
  apply IH.
Qed.

(** The hits of one document. *)
Definition hits_of_doc (d : string) (hs : list hit) : list hit :=
  filter (fun h => String.eqb (hit_doc h) d) hs.

(** The scores dictionary after both loops, as a function of the hits. *)
Definition scores_of_hits (query_tfidf : Dict.t R) (hs : list hit) : Dict.t R :=
  let acc := fold_left record_hit hs (mkAcc [] []) in
  add_cosine query_tfidf (doc_vectors acc) (scores acc).

Lemma scores_of_hits_keys (query_tfidf : Dict.t R) (hs : list hit) (d : string) :
  In d (Dict.keys (scores_of_hits query_tfidf hs)) <-> In d (map hit_doc hs).
Proof.
  unfold scores_of_hits. rewrite record_hits_loops. cbn [doc_vectors scores].
  rewrite add_cosine_loop, counting_loop_keys.
  change (map fst ?x) with (Dict.keys x).
  rewrite !counting_loop_keys. simpl. tauto.
Qed.

Lemma scores_of_hits_nodup (query_tfidf : Dict.t R) (hs : list hit) :
  NoDup (Dict.keys (scores_of_hits query_tfidf hs)).
Proof.
  unfold scores_of_hits. rewrite record_hits_loops. cbn [doc_vectors scores].
  rewrite add_cosine_loop. apply counting_loop_nodup, counting_loop_nodup. constructor.
Qed.

Lemma scores_of_hits_value (query_tfidf : Dict.t R) (hs : list hit) (d : string) :
  NoDup (map hit_lemma (hits_of_doc d hs)) ->
  Dict.get_default 0%R d (scores_of_hits query_tfidf hs) =
  (Rsum (map (fun h => hit_html_weight h / 10000) (hits_of_doc d hs)) +
   Rsum (map (fun h => Dict.get_default 0 (hit_lemma h) query_tfidf * hit_tf_idf h)
             (hits_of_doc d hs)))%R.
Proof.
  intros Hnd. unfold scores_of_hits. rewrite record_hits_loops. cbn [doc_vectors scores].
  rewrite add_cosine_loop, counting_loop_value.
  match goal with |- context [filter _ ?x] => set (dv := x) end.
  assert (Hdv : @Dict.get_default (Dict.t R) [] d dv =
                map (fun h => (hit_lemma h, hit_tf_idf h)) (hits_of_doc d hs)).
  { unfold dv. rewrite counting_loop_value. unfold Dict.get_default at 1. cbn [Dict.get].
    fold (hits_of_doc d hs).
    rewrite (set_each_fresh hit_lemma hit_tf_idf); auto. }
  assert (Hnd' : NoDup (Dict.keys dv))
    by (apply counting_loop_nodup; constructor).
  clearbody dv.
  rewrite counting_loop_value. fold (hits_of_doc d hs).
  rewrite (fold_left_Rsum (fun h => (hit_html_weight h / 10000)%R)).
  rewrite filter_key_nodup by assumption.
  unfold Dict.get_default in Hdv.
  unfold Dict.t in *.
  destruct (Dict.get d dv) as [data|] eqn:Hget.
  - subst data. cbn [fold_left snd]. unfold cosine.
    rewrite (fold_left_Rsum
               (fun lv => (Dict.get_default 0 (fst lv) query_tfidf * snd lv)%R)).
    rewrite (map_map (fun h => (hit_lemma h, hit_tf_idf h))). cbn [fst snd].
    change (Dict.get_default 0%R d []) with 0%R. lra.
  - symmetry in Hdv. apply map_eq_nil in Hdv. rewrite Hdv.
    cbn [fold_left map]. change (Dict.get_default 0%R d []) with 0%R.
    unfold Rsum. simpl. lra.
Qed.

(** *** The score as the specification words it *)

(** The posting of document [doc_id] under lemma [l], with the postings
    list it sits in. *)
Definition posting_for (c : store) (l doc_id : string) : option (list posting * posting) :=
  match find_one l c with
  | Some row =>
      match find (fun p => String.eqb (location p) doc_id) (docs row) with
      | Some p => Some (docs row, p)
      | None => None
      end
  | None => None
  end.

(** A candidate shares at least one lemma with the query. *)
Definition is_candidate (c : store) (query_tfidf : Dict.t R) (doc_id : string) : Prop :=
  exists l, In l (Dict.keys query_tfidf) /\ posting_for c l doc_id <> None.

(** Sum over the shared query lemmas of weight times tf-idf, plus
    [html_weight / 10000] for each such (document, lemma) pair. *)
Definition spec_score (self : BasicQuery) (c : store) (query_tfidf : Dict.t R)
           (doc_id : string) : R :=
  Rsum (map (fun l =>
               match posting_for c l doc_id with
               | Some (ps, p) =>
                   (Dict.get_default 0 l query_tfidf * resolved_tf_idf self ps p
                    + html_weight p / 10000)%R
               | None => 0%R
               end)
            (Dict.keys query_tfidf)).

Lemma filter_location_nodup (d : string) (ps : list posting) :
  NoDup (map location ps) ->
  filter (fun p => String.eqb (location p) d) ps =
  match find (fun p => String.eqb (location p) d) ps with
  | Some p => [p]
  | None => []
  end.
Proof.
  induction ps as [|p ps IH]; simpl; intros Hnd; [reflexivity|].
  inversion Hnd as [|? ? Hp Hnd']; subst.
  destruct (String.eqb_spec (location p) d) as [Heq|Hne]; [|now apply IH].
  f_equal. rewrite IH by assumption.
  destruct (find (fun p0 => String.eqb (location p0) d) ps) as [q|] eqn:Hq; [|reflexivity].
  apply find_some in Hq as [Hin Hloc]. apply String.eqb_eq in Hloc.
  exfalso. apply Hp. rewrite Heq, <- Hloc. now apply in_map.
Qed.

Lemma find_one_in (l : string) (c : store) (row : term_row) :
  find_one l c = Some row -> In row c /\ lemma row = l.
Proof.
  unfold find_one. intros H. apply find_some in H as [Hin Hl].
  now apply String.eqb_eq in Hl.
Qed.

Lemma hits_of_doc_lemma (self : BasicQuery) (c : store) (l d : string) :
  store_wf c ->
  hits_of_doc d (hits_of_lemma self c l) =
  match posting_for c l d with
  | Some (ps, p) => [hit_of self l ps p]
  | None => []
  end.
Proof.
  intros [_ Hlocs]. unfold hits_of_doc, hits_of_lemma, posting_for.
  destruct (find_one l c) as [row|] eqn:Hrow; [|reflexivity].
  apply find_one_in in Hrow as [Hin _].
  assert (Hf : forall ps0 ps,
             filter (fun h => String.eqb (hit_doc h) d) (map (hit_of self l ps0) ps) =
             map (hit_of self l ps0) (filter (fun p => String.eqb (location p) d) ps)).
  { intros ps0 ps. induction ps as [|p ps IH]; simpl; [reflexivity|].
    destruct (String.eqb (location p) d); simpl; now rewrite IH. }
  rewrite Hf, filter_location_nodup by now apply Hlocs.
  now destruct (find _ (docs row)).
Qed.

Lemma hits_of_doc_all (self : BasicQuery) (c : store) (lemmas : list string) (d : string) :
  store_wf c ->
  hits_of_doc d (hits self c lemmas) =
  flat_map (fun l => match posting_for c l d with
                     | Some (ps, p) => [hit_of self l ps p]
                     | None => []
                     end) lemmas.
Proof.
  intros Hwf. unfold hits, hits_of_doc. rewrite filter_flat_map.
  induction lemmas as [|l lemmas IH]; simpl; [reflexivity|].
  rewrite IH. f_equal. now apply hits_of_doc_lemma.
Qed.

Lemma hits_of_doc_lemmas_nodup (self : BasicQuery) (c : store) (lemmas : list string)
      (d : string) :
  store_wf c -> NoDup lemmas ->
  NoDup (map hit_lemma (hits_of_doc d (hits self c lemmas))).
Proof.
  intros Hwf Hnd. rewrite hits_of_doc_all by assumption.
  induction lemmas as [|l lemmas IH]; simpl; [constructor|].
  inversion Hnd as [|? ? Hl Hnd']; subst.
  rewrite map_app. destruct (posting_for c l d) as [[ps p]|]; simpl; [|now apply IH].
  constructor; [|now apply IH].
  intros Hin. apply Hl. apply in_map_iff in Hin as (h & <- & Hh).
  apply in_flat_map in Hh as (l' & Hl' & Hh).
  destruct (posting_for c l' d) as [[ps' p']|]; [|contradiction].
  destruct Hh as [<-|[]]. exact Hl'.
Qed.

Lemma hits_docs (self : BasicQuery) (c : store) (lemmas : list string) (d : string) :
  In d (map hit_doc (hits self c lemmas)) <->
  exists l, In l lemmas /\ posting_for c l d <> None.
Proof.
  unfold hits, hits_of_lemma, posting_for. rewrite in_map_iff. split.
  - intros (h & <- & Hh). apply in_flat_map in Hh as (l & Hl & Hh).
    exists l. split; [assumption|].
    destruct (find_one l c) as [row|]; [|contradiction].
    apply in_map_iff in Hh as (p & <- & Hp). simpl.
    destruct (find (fun p0 => String.eqb (location p0) (location p)) (docs row)) eqn:Hf;
      [discriminate|].
    exfalso. apply (find_none _ _ Hf) in Hp. now rewrite String.eqb_refl in Hp.
  - intros (l & Hl & Hp).
    destruct (find_one l c) as [row|] eqn:Hrow; [|contradiction].
    destruct (find (fun p => String.eqb (location p) d) (docs row)) as [p|] eqn:Hf;
      [|contradiction].
    apply find_some in Hf as [Hin Hloc]. apply String.eqb_eq in Hloc.
    exists (hit_of self l (docs row) p). split; [exact Hloc|].
    apply in_flat_map. exists l. split; [assumption|].
    rewrite Hrow. now apply in_map.
Qed.

Lemma Rsum_map_add {X : Type} (f g : X -> R) (l : list X) :
  (Rsum (map f l) + Rsum (map g l))%R = Rsum (map (fun x => (g x + f x)%R) l).
Proof.
  unfold Rsum. induction l as [|x l IH]; simpl; [lra|]. rewrite <- IH. lra.
Qed.

(** What the code accumulates for a document is the specification's sum. *)
Lemma scores_of_hits_spec (self : BasicQuery) (c : store) (query_tfidf : Dict.t R)
      (d : string) :
  store_wf c -> NoDup (Dict.keys query_tfidf) ->
  Dict.get_default 0%R d
    (scores_of_hits query_tfidf (hits self c (Dict.keys query_tfidf))) =
  spec_score self c query_tfidf d.
Proof.
  intros Hwf Hnd.
  rewrite scores_of_hits_value by now apply hits_of_doc_lemmas_nodup.
  rewrite Rsum_map_add, hits_of_doc_all by assumption.
  unfold spec_score.
  induction (Dict.keys query_tfidf) as [|l ls IH]; simpl; [reflexivity|].
  rewrite map_app, Rsum_app.
  inversion Hnd as [|? ? _ Hnd']; subst. rewrite IH by assumption.
  destruct (posting_for c l d) as [[ps p]|]; unfold Rsum; simpl; lra.
Qed.

(** *** Ranking *)

Definition score_ge {K : Type} (a b : K * R) : Prop := (snd a >= snd b)%R.

Lemma insert_desc_perm {K : Type} (x : K * R) (l : list (K * R)) :
  Permutation (x :: l) (insert_desc x l).
Proof.
  induction l as [|y l IH]; simpl; [reflexivity|].
  destruct (Rlt_dec (snd x) (snd y)); [|reflexivity].
  rewrite perm_swap. now apply perm_skip.
Qed.

Lemma sorted_desc_perm {K : Type} (l : list (K * R)) :
  Permutation l (sorted_desc l).
Proof.
  induction l as [|x l IH]; simpl; [constructor|].
  rewrite <- insert_desc_perm. now apply perm_skip.
Qed.

Lemma insert_desc_sorted {K : Type} (x : K * R) (l : list (K * R)) :
  StronglySorted score_ge l -> StronglySorted score_ge (insert_desc x l).
Proof.
  induction 1 as [|y l Hs IH Hy]; simpl.
  - repeat constructor.
  - destruct (Rlt_dec (snd x) (snd y)) as [Hlt|Hge].
    + constructor; [assumption|].
      apply (Permutation_Forall (insert_desc_perm x l)).
      constructor; [unfold score_ge; lra | assumption].
    + assert (Hxy : score_ge x y) by (unfold score_ge; lra).
      constructor; [now constructor|].
      constructor; [assumption|].
      eapply Forall_impl; [|exact Hy].
      intros z Hz. unfold score_ge in *. lra.
Qed.

Lemma sorted_desc_sorted {K : Type} (l : list (K * R)) :
  StronglySorted score_ge (sorted_desc l).
Proof.
  induction l as [|x l IH]; simpl; [constructor | now apply insert_desc_sorted].
Qed.

Lemma calculate_cosine_similarity_hits (self : BasicQuery) (c : store) (query : string)
      (query_tfidf : Dict.t R) (vector_length : R) (results : list string) :
  process_query self c query = Ok (query_tfidf, vector_length) ->
  calculate_cosine_similarity self c query = Ok results ->
  results =
  map fst (firstn 20 (sorted_desc
                        (scores_of_hits query_tfidf
                                        (hits self c (Dict.keys query_tfidf))))).
Proof.
  intros Hpq. unfold calculate_cosine_similarity, final_scores. rewrite Hpq. cbn [rbind].
  destruct (score_postings self c query_tfidf) as [acc|] eqn:Hacc; cbn [rbind];
    [|discriminate].
  apply score_postings_ok in Hacc. intros [= <-].
  unfold scores_of_hits. now rewrite <- Hacc.
Qed.

(** C4.  On a well-formed store, when the query evaluates, the returned
    identifiers are the first 20 of a list of (document, score) pairs that
    holds each candidate document once, is sorted by score in descending
    order, and gives every document the score
    [sum over the shared query lemmas of weight * tf_idf + html_weight / 10000];
    the query vector's norm does not enter the score. *)
Theorem cosine_ranking
        (self : BasicQuery) (c : store) (query : string)
        (query_tfidf : Dict.t R) (vector_length : R) (results : list string) :
  store_wf c ->
  process_query self c query = Ok (query_tfidf, vector_length) ->
  calculate_cosine_similarity self c query = Ok results ->
  exists ranked : list (string * R),
    results = map fst (firstn 20 ranked) /\
    StronglySorted score_ge ranked /\
    NoDup (map fst ranked) /\
    (forall d, In d (map fst ranked) <-> is_candidate c query_tfidf d) /\
    (forall d sc, In (d, sc) ranked -> sc = spec_score self c query_tfidf d).
Proof.
  intros Hwf Hpq Hres.
  pose proof (calculate_cosine_similarity_hits _ _ _ _ _ _ Hpq Hres) as Hr.
  destruct (process_query_keys _ _ _ _ _ Hpq) as [Hkeys _].
  assert (Hnd : NoDup (Dict.keys query_tfidf))
    by (rewrite Hkeys; apply tokenize_query_nodup).
  set (final := scores_of_hits query_tfidf (hits self c (Dict.keys query_tfidf))) in *.
  pose proof (sorted_desc_perm final) as Hperm.
  exists (sorted_desc final). split; [assumption|]. split; [apply sorted_desc_sorted|].
  assert (Hkperm : Permutation (Dict.keys final) (map fst (sorted_desc final)))
    by now apply Permutation_map.
  split; [|split].
  - apply (Permutation_NoDup Hkperm). apply scores_of_hits_nodup.
  - intros d. rewrite <- (Permutation_in' (eq_refl d) Hkperm).
    unfold final. rewrite scores_of_hits_keys. apply hits_docs.
  - intros d sc Hin.
    apply (Permutation_in _ (Permutation_sym Hperm)) in Hin.
    apply dict_in_get in Hin; [|apply scores_of_hits_nodup].
    rewrite <- (scores_of_hits_spec self c query_tfidf d Hwf Hnd).
    fold final. unfold Dict.get_default. now rewrite Hin.
Qed.

(* ================================================================ *)
(** ** Phase 1 establishes the store invariants                       *)
(* ================================================================ *)











Lemma add_to_index_run (lemmas : Dict.t lemma_data) (folder file : string) (s : state) :
  fst (add_to_index lemmas folder file s) = Ok tt /\
  collection (snd (add_to_index lemmas folder file s)) =
  bulk_push (map (posting_of (String.append folder (String.append "/" file))
                             (List.length lemmas)) lemmas)
            (collection s).
Proof.
  unfold add_to_index.
  unfold bind at 1, get_num_documents at 1.
  unfold bind at 1, print at 1.
  unfold bind at 1, lift at 1. rewrite posting_updates_ok.
  destruct lemmas as [|item lemmas]; [now split|].
  cbn [map]. split; reflexivity.
Qed.




(* ================================================================ *)
(** ** format_urls                                                    *)
(* ================================================================ *)

Definition has_protocol (u : string) : bool :=
  String.prefix "http://" u || String.prefix "https://" u.

(** What [format_urls] appends for one url. *)
Definition format_url (u : string) : string :=
  if negb (String.prefix "http://" u) && negb (String.prefix "https://" u)
  then String.append "http://" u
  else u.

Lemma format_url_has_protocol (u : string) : has_protocol (format_url u) = true.
Proof.
  unfold format_url, has_protocol.
  destruct (String.prefix "http://" u) eqn:H1; simpl.
  - now rewrite H1.
  - destruct (String.prefix "https://" u) eqn:H2; simpl.
    + now rewrite H1, H2.
    + repeat (destruct (ascii_dec _ _) as [_|Hn]; [|now destruct Hn]).
      now destruct u.
Qed.

Lemma format_url_fixed (u : string) : has_protocol u = true -> format_url u = u.
Proof.
  unfold format_url, has_protocol. intros H.
  destruct (String.prefix "http://" u), (String.prefix "https://" u);
    simpl in *; try reflexivity. discriminate.
Qed.

Lemma format_urls_from_some (us : list string) (acc : list string) :
  for_each
    (fun full_urls url =>
       match url with
       | None => Raise AttributeError
       | Some u =>
           if negb (String.prefix "http://" u) && negb (String.prefix "https://" u)
           then Ok (full_urls ++ [String.append "http://" u])
           else Ok (full_urls ++ [u])
       end)
    (map Some us) acc
  = Ok (acc ++ map format_url us).
Proof.
  revert acc. induction us as [|u us IH]; intros acc; cbn [map for_each].
  - now rewrite app_nil_r.
  - assert (Hu : format_url u =
                 if negb (String.prefix "http://" u) && negb (String.prefix "https://" u)
                 then String.append "http://" u else u) by reflexivity.
    destruct (negb (String.prefix "http://" u) && negb (String.prefix "https://" u));
      cbn [rbind]; rewrite IH, <- app_assoc, Hu; reflexivity.
Qed.

Lemma format_urls_some (us : list string) :
  format_urls (map Some us) = Ok (map format_url us).
Proof. apply format_urls_from_some. Qed.

Lemma all_some {A : Type} (l : list (option A)) :
  ~ In None l -> exists xs, l = map Some xs.
Proof.
  induction l as [|[a|] l IH]; intros Hn.
  - now exists [].
  - destruct IH as [xs ->]; [intros H; apply Hn; now right|].
    now exists (a :: xs).
  - exfalso. apply Hn. now left.
Qed.

Lemma none_in_or_not {A : Type} (l : list (option A)) : In None l \/ ~ In None l.
Proof.
  induction l as [|[a|] l IH].
  - right. intros [].
  - destruct IH as [H|H]; [left; now right | right].
    intros [Heq|Hin]; [discriminate | contradiction].
  - left. now left.
Qed.

(** X1.  On a list of resolved urls [format_urls] returns a list of the
    same length in which every url starts with [http://] or [https://]; a
    url that already does is kept as it is, position by position, and
    formatting the output again changes nothing. *)
Theorem format_urls_adds_protocol (us : list string) :
  exists full_urls,
    format_urls (map Some us) = Ok full_urls /\
    List.length full_urls = List.length us /\
    (forall u, In u full_urls -> has_protocol u = true) /\
    (forall i u, nth_error us i = Some u -> has_protocol u = true ->
                 nth_error full_urls i = Some u) /\
    format_urls (map Some full_urls) = Ok full_urls.
Proof.
  exists (map format_url us). split; [apply format_urls_some|].
  split; [apply length_map|]. split; [|split].
  - intros u Hu. apply in_map_iff in Hu as (u0 & <- & _).
    apply format_url_has_protocol.
  - intros i u Hi Hp. rewrite nth_error_map, Hi. simpl.
    now rewrite format_url_fixed.
  - rewrite format_urls_some. f_equal. rewrite map_map.
    apply map_ext. intros u. apply format_url_fixed, format_url_has_protocol.
Qed.

(** X2.  [format_urls] raises exactly when the list holds a [None] (an
    unresolved url), and then with [AttributeError]; on every other list it
    returns one url per element. *)
Theorem format_urls_raises_on_none (urls : list (option string)) :
  (In None urls <-> format_urls urls = Raise AttributeError) /\
  (~ In None urls <->
   exists full_urls,
     format_urls urls = Ok full_urls /\ List.length full_urls = List.length urls).
Proof.
  assert (Hyes : In None urls -> format_urls urls = Raise AttributeError)
    by apply format_urls_none.
  assert (Hno : ~ In None urls ->
                exists full_urls,
                  format_urls urls = Ok full_urls /\
                  List.length full_urls = List.length urls).
  { intros Hn. destruct (all_some urls Hn) as [us ->].
    exists (map format_url us). split; [apply format_urls_some|].
    now rewrite !length_map. }
  split; split; auto.
  - intros Hr. destruct (none_in_or_not urls) as [H|H]; [assumption|].
    destruct (Hno H) as (full & Hok & _). congruence.
  - intros (full & Hok & _) Hin. rewrite (Hyes Hin) in Hok. discriminate.
Qed.

(* ================================================================ *)
(** ** What a ranking and a result list look like                     *)
(* ================================================================ *)

Lemma firstn_nodup {A : Type} (n : nat) (l : list A) : NoDup l -> NoDup (firstn n l).
Proof.
  intros H. rewrite <- (firstn_skipn n l) in H. now apply NoDup_app_remove_r in H.
Qed.

Lemma firstn_in {A : Type} (n : nat) (l : list A) (x : A) : In x (firstn n l) -> In x l.
Proof.
  intros H. rewrite <- (firstn_skipn n l). apply in_or_app. now left.
Qed.

Lemma calculate_cosine_similarity_ok (self : BasicQuery) (c : store) (query : string)
      (results : list string) :
  calculate_cosine_similarity self c query = Ok results ->
  exists query_tfidf vector_length,
    process_query self c query = Ok (query_tfidf, vector_length) /\
    results =
    map fst (firstn 20 (sorted_desc
                          (scores_of_hits query_tfidf
                                          (hits self c (Dict.keys query_tfidf))))).
Proof.
  intros Hres.
  destruct (process_query self c query) as [[qw vl]|e] eqn:Hpq.
  - exists qw, vl. split; [reflexivity|].
    now apply (calculate_cosine_similarity_hits self c query qw vl).
  - unfold calculate_cosine_similarity, final_scores in Hres.
    rewrite Hpq in Hres. discriminate.
Qed.

(** X3.  A returned ranking has at most 20 identifiers, names no document
    twice, and names only documents that have a posting in the row of some
    lemma of the query. *)
Theorem ranking_is_bounded_and_grounded
        (self : BasicQuery) (c : store) (query : string) (results : list string) :
  calculate_cosine_similarity self c query = Ok results ->
  List.length results <= 20 /\
  NoDup results /\
  forall d, In d results ->
            exists l row p,
              In l (query_lemmas query) /\ find_one l c = Some row /\
              In p (docs row) /\ location p = d.
Proof.
  intros Hres.
  destruct (calculate_cosine_similarity_ok _ _ _ _ Hres) as (qw & vl & Hpq & ->).
  destruct (process_query_keys _ _ _ _ _ Hpq) as [Hkeys _].
  set (final := scores_of_hits qw (hits self c (Dict.keys qw))).
  assert (Hperm : Permutation (Dict.keys final) (map fst (sorted_desc final)))
    by apply Permutation_map, sorted_desc_perm.
  split; [|split].
  - rewrite length_map. apply firstn_le_length.
  - rewrite <- firstn_map. apply firstn_nodup.
    apply (Permutation_NoDup Hperm), scores_of_hits_nodup.
  - intros d Hd. rewrite <- firstn_map in Hd. apply firstn_in in Hd.
    apply (Permutation_in _ (Permutation_sym Hperm)) in Hd.
    apply scores_of_hits_keys, hits_docs in Hd as (l & Hl & Hp).
    unfold posting_for in Hp.
    destruct (find_one l c) as [row|] eqn:Hrow; [|contradiction].
    destruct (find (fun p => String.eqb (location p) d) (docs row)) as [p|] eqn:Hf;
      [|contradiction].
    apply find_some in Hf as [Hin Hloc]. apply String.eqb_eq in Hloc.
    exists l, row, p. repeat split; auto.
    apply tokenize_query_keys. now rewrite <- Hkeys.
Qed.

Lemma tokenize_query_empty (query : string) :
  query_lemmas query = [] -> tokenize_query query = [].
Proof. intros H. rewrite tokenize_query_loop, H. reflexivity. Qed.

(** X4.  A query without a countable token (empty, blank, or made of
    numbers only) evaluates to the empty ranking on every store, and
    [query_index] then returns the empty list without opening the
    bookkeeping file and without changing the state. *)
Theorem query_without_lemmas_is_empty
        (self : BasicQuery) (query : string) :
  query_lemmas query = [] ->
  (forall c, calculate_cosine_similarity self c query = Ok []) /\
  (forall s, query_index self query s = (Ok [], s)).
Proof.
  intros Hq. apply tokenize_query_empty in Hq.
  assert (Hccs : forall c, calculate_cosine_similarity self c query = Ok []).
  { intros c. unfold calculate_cosine_similarity, final_scores, process_query.
    rewrite Hq. reflexivity. }
  split; [assumption|].
  intros s. unfold query_index, bind at 1, get_collection at 1.
  unfold bind at 1, lift at 1. rewrite Hccs. reflexivity.
Qed.

Lemma mapM_get_url_found (data : Dict.t string) (results : list string) (s : state) :
  bookkeeping_json E = FileJson data ->
  (forall d, In d results -> In d (Dict.keys data)) ->
  mapM get_url results s =
  (Ok (map (fun d => Some (Dict.get_default EmptyString d data)) results), s).
Proof.
  intros Hb Hall. induction results as [|d results IH]; [reflexivity|].
  cbn [mapM map]. unfold bind at 1. unfold get_url at 1. rewrite Hb.
  rewrite (dict_get_default_in EmptyString d data) by (apply Hall; now left).
  unfold ret at 1. unfold bind at 1.
  rewrite IH by (intros d' Hd'; apply Hall; now right).
  reflexivity.
Qed.

(** X5.  When the bookkeeping file is readable and has an entry for every
    ranked document, [query_index] returns, in ranking order, the entry of
    each ranked document - as it is when it starts with [http://] or
    [https://], prefixed with [http://] otherwise - so at most 20 urls,
    and it leaves the state untouched. *)
Theorem query_index_resolves_ranking
        (self : BasicQuery) (query : string) (s : state)
        (results : list string) (data : Dict.t string) :
  calculate_cosine_similarity self (collection s) query = Ok results ->
  bookkeeping_json E = FileJson data ->
  (forall d, In d results -> In d (Dict.keys data)) ->
  exists urls,
    query_index self query s = (Ok urls, s) /\
    List.length urls = List.length results /\
    List.length urls <= 20 /\
    forall i d,
      nth_error results i = Some d ->
      exists u u',
        Dict.get d data = Some u /\ nth_error urls i = Some u' /\
        has_protocol u' = true /\
        (u' = u \/ (has_protocol u = false /\ u' = String.append "http://" u)).
Proof.
  intros Hres Hb Hall.
  set (entry := fun d => Dict.get_default EmptyString d data).
  exists (map format_url (map entry results)).
  assert (Hlen : List.length results <= 20).
  { destruct (calculate_cosine_similarity_ok _ _ _ _ Hres) as (qw & vl & _ & ->).
    rewrite length_map. apply firstn_le_length. }
  split; [|split; [now rewrite !length_map | split; [now rewrite !length_map|]]].
  - unfold query_index, bind at 1, get_collection at 1.
    unfold bind at 1, lift at 1. rewrite Hres. unfold bind at 1.
    destruct results as [|r results]; [reflexivity|].
    rewrite (mapM_get_url_found data) by assumption.
    unfold lift.
    rewrite <- (map_map entry Some), format_urls_some. reflexivity.
  - intros i d Hd. exists (entry d), (format_url (entry d)).
    split; [|split; [|split]].
    + apply dict_get_default_in, Hall. eapply nth_error_In; eassumption.
    + now rewrite !nth_error_map, Hd.
    + apply format_url_has_protocol.
    + unfold format_url, has_protocol.
      destruct (String.prefix "http://" (entry d)),
               (String.prefix "https://" (entry d)); simpl; auto.
Qed.

(* ================================================================ *)
(** ** What indexing one document does to the store                   *)
(* ================================================================ *)









(* ================================================================ *)
(** ** Errors of the build                                            *)
(* ================================================================ *)

Fixpoint count_char (c : ascii) (s : string) : nat :=
  match s with
  | EmptyString => 0
  | String c' s' => (if Ascii.eqb c' c then 1 else 0) + count_char c s'
  end.

Lemma py_split_length (sep : ascii) (s : string) :
  List.length (py_split sep s) = S (count_char sep s).
Proof.
  induction s as [|c s IH]; simpl; [reflexivity|].
  destruct (Ascii.eqb c sep); simpl; [now rewrite IH|].
  destruct (py_split sep s); simpl in *; [discriminate | assumption].
Qed.

Lemma py_split_no_sep (sep : ascii) (s : string) :
  count_char sep s = 0 -> py_split sep s = [s].
Proof.
  induction s as [|c s IH]; simpl; [reflexivity|].
  destruct (Ascii.eqb c sep); simpl; [discriminate|].
  intros H. now rewrite IH.
Qed.

Lemma py_split_at_sep (sep : ascii) (a b : string) :
  count_char sep a = 0 ->
  py_split sep (String.append a (String sep b)) = a :: py_split sep b.
Proof.
  induction a as [|c a IH]; simpl.
  - now rewrite Ascii.eqb_refl.
  - destruct (Ascii.eqb c sep); simpl; [discriminate|].
    intros H. now rewrite IH.
Qed.

(** X8.  A manifest key that does not contain exactly one [/] makes
    [process_dir] raise [ValueError], and a key [folder/file] whose page
    cannot be opened makes it raise [FileNotFoundError]; in both cases
    nothing is printed, written or counted. *)
Theorem process_dir_rejects_bad_keys (s : state) :
  (forall directory,
      count_char "/" directory <> 1 ->
      process_dir directory s = (Raise ValueError, s)) /\
  (forall folder file,
      count_char "/" folder = 0 -> count_char "/" file = 0 ->
      page E folder file = None ->
      process_dir (String.append folder (String.append "/" file)) s
      = (Raise FileNotFoundError, s)).
Proof.
  split.
  - intros directory Hn. unfold process_dir.
    pose proof (py_split_length "/" directory) as Hlen.
    destruct (py_split "/" directory) as [|a [|b [|x l]]]; try reflexivity.
    simpl in Hlen. exfalso. apply Hn. lia.
  - intros folder file Hfo Hfi Hpage. unfold process_dir.
    change (String.append "/" file) with (String "/" file).
    rewrite py_split_at_sep, py_split_no_sep by assumption.
    now rewrite Hpage.
Qed.


(* ================================================================ *)
(** ** The backfill, run again                                        *)
(* ================================================================ *)






(* ================================================================ *)
(** ** Ties in the ranking                                            *)
(* ================================================================ *)

Definition has_score {K : Type} (v : R) (x : K * R) : bool :=
  if Req_dec_T (snd x) v then true else false.

Lemma insert_desc_stable {K : Type} (v : R) (x : K * R) (l : list (K * R)) :
  filter (has_score v) (insert_desc x l) = filter (has_score v) (x :: l).
Proof.
  induction l as [|y l IH]; [reflexivity|].
  cbn [insert_desc]. destruct (Rlt_dec (snd x) (snd y)) as [Hlt|_]; [|reflexivity].
  cbn [filter] in *. rewrite IH.
  destruct (has_score v x) eqn:Hx, (has_score v y) eqn:Hy; try reflexivity.
  unfold has_score in Hx, Hy.
  destruct (Req_dec_T (snd x) v), (Req_dec_T (snd y) v); try discriminate.
  exfalso. lra.
Qed.

Lemma sorted_desc_stable {K : Type} (v : R) (l : list (K * R)) :
  filter (has_score v) (sorted_desc l) = filter (has_score v) l.
Proof.
  induction l as [|x l IH]; [reflexivity|].
  cbn [sorted_desc]. rewrite insert_desc_stable. cbn [filter]. now rewrite IH.
Qed.

(** X11.  The ranking is the stable descending sort of the final scores:
    the returned identifiers are the first 20 of a rearrangement of the
    scores dictionary that is sorted by score, descending, and in which the
    documents of any one score keep the order they have in the dictionary,
    that is the order in which the scoring loop first met them. *)
Theorem ranking_breaks_ties_by_first_appearance
        (self : BasicQuery) (c : store) (query : string) (final : Dict.t R) :
  final_scores self c query = Ok final ->
  exists ranked,
    calculate_cosine_similarity self c query = Ok (map fst (firstn 20 ranked)) /\
    Permutation final ranked /\
    StronglySorted score_ge ranked /\
    forall v, filter (has_score v) ranked = filter (has_score v) final.
Proof.
  intros Hf. exists (sorted_desc final).
  split; [unfold calculate_cosine_similarity; now rewrite Hf|].
  split; [apply sorted_desc_perm|]. split; [apply sorted_desc_sorted|].
  intros v. apply sorted_desc_stable.
Qed.

(* ================================================================ *)
(** ** Vector lengths                                                 *)
(* ================================================================ *)

Definition euclidean_norm (vs : list R) : R :=
  sqrt (Rsum (map (fun v => (v * v)%R) vs)).

Lemma sum_of_squares_nonneg (vs : list R) : (0 <= Rsum (map (fun v => v * v) vs))%R.
Proof.
  unfold Rsum. induction vs as [|v vs IH]; simpl; [lra|].
  pose proof (Rle_0_sqr v) as Hv. unfold Rsqr in Hv. lra.
Qed.

Lemma sum_of_squares_zero (vs : list R) :
  Rsum (map (fun v => v * v)%R vs) = 0%R <-> Forall (fun v => v = 0%R) vs.
Proof.
  unfold Rsum. induction vs as [|v vs IH]; simpl.
  - split; [constructor | reflexivity].
  - pose proof (Rle_0_sqr v) as Hv. unfold Rsqr in Hv.
    pose proof (sum_of_squares_nonneg vs) as Hs. unfold Rsum in Hs.
    split.
    + intros H. assert (Hv0 : (v * v = 0)%R) by lra.
      apply Rmult_integral in Hv0.
      constructor; [tauto|]. apply IH. lra.
    + intros H. inversion H as [|? ? Hv0 Hvs]; subst.
      apply IH in Hvs. rewrite Hvs. lra.
Qed.

(** X12.  [normalize_doc_tfidf] returns, for the documents of the vector
    dictionary in their order, the Euclidean norm of each document's
    tf-idf values; a norm is never negative, and it is zero exactly when
    every tf-idf value of the document is zero. *)
Theorem normalize_doc_tfidf_norms (doc_vector : Dict.t (Dict.t R)) :
  NoDup (Dict.keys doc_vector) ->
  normalize_doc_tfidf doc_vector =
    map (fun item => (fst item, euclidean_norm (Dict.values (snd item)))) doc_vector /\
  (forall doc_id len,
      In (doc_id, len) (normalize_doc_tfidf doc_vector) ->
      exists data,
        In (doc_id, data) doc_vector /\
        (0 <= len)%R /\
        (len = 0%R <-> Forall (fun v => v = 0%R) (Dict.values data))).
Proof.
  intros Hnd.
  assert (Heq : normalize_doc_tfidf doc_vector =
                map (fun item => (fst item, euclidean_norm (Dict.values (snd item))))
                    doc_vector).
  { unfold normalize_doc_tfidf.
    apply (set_each_fresh fst (fun item => euclidean_norm (Dict.values (snd item))));
      [exact Hnd | intros x _ []]. }
  split; [assumption|].
  intros doc_id len Hin. rewrite Heq in Hin.
  apply in_map_iff in Hin as ([d data] & Hpair & Hin). cbn [fst snd] in Hpair.
  injection Hpair as -> <-. exists data. split; [assumption|].
  unfold euclidean_norm. split; [apply sqrt_pos|].
  rewrite <- sum_of_squares_zero. split.
  - intros H. apply sqrt_eq_0; [apply sum_of_squares_nonneg | assumption].
  - intros H. rewrite H. apply sqrt_0.
Qed.

(* ================================================================ *)
(** ** The term frequencies of a document add up                      *)
(* ================================================================ *)

Definition total_freq (lemmas : Dict.t lemma_data) : nat :=
  fold_right (fun item acc => freq (snd item) + acc) 0 lemmas.

Lemma total_freq_count (o : string * R) (lemmas : Dict.t lemma_data) :
  total_freq (Dict.update (mkData 0 0%R) (fst o) (add_occurrence o) lemmas) =
  S (total_freq lemmas).
Proof.
  unfold Dict.update, Dict.get_default.
  induction lemmas as [|[k d] lemmas IH]; simpl.
  - reflexivity.
  - destruct (String.eqb_spec k (fst o)) as [Hk|Hk]; simpl.
    + lia.
    + rewrite IH. lia.
Qed.

Lemma total_freq_occurrences (occ : list (string * R)) (lemmas : Dict.t lemma_data) :
  total_freq (counting_loop (mkData 0 0%R) fst add_occurrence occ lemmas) =
  total_freq lemmas + List.length occ.
Proof.
  unfold counting_loop. revert lemmas.
  induction occ as [|o occ IH]; intros lemmas; simpl; [lia|].
  rewrite IH, total_freq_count. lia.
Qed.

Lemma Rsum_tf (n : nat) (doc_id : string) (lemmas : Dict.t lemma_data) :
  Rsum (map (fun u => tf (snd u)) (map (posting_of doc_id n) lemmas)) =
  (INR (total_freq lemmas) / INR n)%R.
Proof.
  unfold Rsum, total_freq. induction lemmas as [|[l d] lemmas IH]; simpl.
  - unfold Rdiv. lra.
  - rewrite IH, plus_INR. unfold Rdiv. lra.
Qed.

(** X13.  The term frequencies written for a document add up to the number
    of counted occurrences divided by the number of distinct lemmas - so to
    more than 1 as soon as a lemma occurs twice - and not to 1. *)
Theorem document_tf_sum (soup : list tag) (doc_id : string) :
  exists updates,
    posting_updates doc_id (process_document soup) = Ok updates /\
    Rsum (map (fun u => tf (snd u)) updates) =
    (INR (List.length (document_lemmas soup)) /
     INR (List.length (nodup string_dec (document_lemmas soup))))%R.
Proof.
  eexists. split; [apply posting_updates_ok|].
  rewrite Rsum_tf, process_document_length. f_equal. f_equal.
  rewrite process_document_loop, total_freq_occurrences.
  rewrite <- occurrences_lemmas, length_map. reflexivity.
Qed.

(* ================================================================ *)
(** ** Query weights, in full                                         *)
(* ================================================================ *)

(** The factor [process_query] multiplies the tf of a lemma with: 0 for a
    row without postings, [ln(total_docs / df)] otherwise. *)
Definition query_idf (self : BasicQuery) (postings_list : list posting) : R :=
  match postings_list with
  | [] => 0%R
  | _ :: _ => ln (INR (total_docs self) / INR (List.length postings_list))
  end.

Lemma weigh_loop (self : BasicQuery) (c : store) (xs : list string)
      (acc acc' : Dict.t R) :
  for_each
    (fun acc l =>
       let? postings_list := postings_of c l in
       let? doc_freq := match postings_list with
                        | [] => Ok 0%R
                        | _ :: _ => log_ratio self postings_list
                        end in
       Ok (Dict.update 0%R l (fun v => (v * doc_freq)%R) acc))
    xs acc = Ok acc' ->
  NoDup xs ->
  (forall x, In x xs -> In x (Dict.keys acc)) ->
  forall l,
    (In l xs ->
     exists ps v, postings_of c l = Ok ps /\ Dict.get l acc = Some v /\
                  Dict.get l acc' = Some (v * query_idf self ps)%R) /\
    (~ In l xs -> Dict.get l acc' = Dict.get l acc).
Proof.
  revert acc. induction xs as [|x xs IH]; intros acc Hok Hnd Hkeys l.
  - cbn [for_each] in Hok. injection Hok as <-. split; [intros [] | reflexivity].
  - cbn [for_each] in Hok.
    inversion Hnd as [|? ? Hx Hnd']; subst.
    destruct (postings_of c x) as [ps|] eqn:Hps; cbn [rbind] in Hok; [|discriminate].
    assert (Hdf : exists df,
               match ps with [] => Ok 0%R | _ :: _ => log_ratio self ps end = Ok df /\
               df = query_idf self ps).
    { destruct ps as [|p ps'].
      - exists 0%R. now split.
      - destruct (log_ratio self (p :: ps')) as [lr|] eqn:Hlr; [|discriminate].
        exists lr. split; [reflexivity|]. now apply log_ratio_value in Hlr. }
    destruct Hdf as (df & Hdf & Hdfv). rewrite Hdf in Hok. cbn [rbind] in Hok.
    set (acc1 := Dict.update 0%R x (fun v => (v * df)%R) acc) in *.
    assert (Hkeys1 : forall y, In y xs -> In y (Dict.keys acc1)).
    { intros y Hy. unfold acc1, Dict.update. apply dict_in_keys_set. right.
      apply Hkeys. now right. }
    destruct (IH acc1 Hok Hnd' Hkeys1 l) as [Hin Hout].
    assert (Hxin : In x (Dict.keys acc)) by (apply Hkeys; now left).
    split.
    + intros [<-|Hl].
      * exists ps, (Dict.get_default 0%R x acc). split; [assumption|].
        split; [now apply dict_get_default_in|].
        rewrite (Hout Hx). unfold acc1, Dict.update.
        rewrite dict_get_set_same. now rewrite Hdfv.
      * destruct (Hin Hl) as (ps' & v & Hps' & Hv & Hv').
        exists ps', v. split; [assumption|]. split; [|assumption].
        rewrite <- Hv. unfold acc1, Dict.update. symmetry.
        apply dict_get_set_other. intros ->. contradiction.
    + intros Hl. rewrite Hout by (intros H; apply Hl; now right).
      unfold acc1, Dict.update. apply dict_get_set_other.
      intros ->. apply Hl. now left.
Qed.

(** X14.  When [process_query] returns, the weight of every query lemma is
    its tf (count over distinct lemmas) times [ln(total_docs / df)], [df]
    being the length of the lemma's postings list, and 0 when the row has
    no posting; each lemma has a row; the weights keep the order in which
    the lemmas first occur in the query; and the returned length is the
    Euclidean norm of the weights. *)
Theorem process_query_weights
        (self : BasicQuery) (c : store) (query : string)
        (query_tfidf : Dict.t R) (vector_length : R) :
  process_query self c query = Ok (query_tfidf, vector_length) ->
  Dict.keys query_tfidf = Dict.keys (tokenize_query query) /\
  vector_length = euclidean_norm (Dict.values query_tfidf) /\
  forall l,
    In l (query_lemmas query) ->
    exists postings_list,
      postings_of c l = Ok postings_list /\
      Dict.get l query_tfidf =
      Some (INR (count_occ string_dec (query_lemmas query) l) /
            INR (List.length (nodup string_dec (query_lemmas query))) *
            query_idf self postings_list)%R.
Proof.
  intros Hpq. destruct (process_query_keys _ _ _ _ _ Hpq) as [Hkeys _].
  split; [assumption|].
  unfold process_query in Hpq.
  rewrite query_tf_ok in Hpq by apply tokenize_query_nodup. cbn [rbind] in Hpq.
  set (n := List.length (tokenize_query query)) in *.
  set (d := map (fun item : string * nat => (fst item, (INR (snd item) / INR n)%R))
                (tokenize_query query)) in *.
  destruct (weigh_query self c d) as [qw|] eqn:Hw; cbn [rbind] in Hpq; [|discriminate].
  injection Hpq as <- <-. split; [reflexivity|].
  intros l Hl. apply tokenize_query_keys in Hl.
  assert (Hdk : Dict.keys d = Dict.keys (tokenize_query query))
    by apply (dict_keys_map_values (fun k => (INR k / INR n)%R)).
  unfold weigh_query in Hw.
  destruct (weigh_loop self c (Dict.keys d) d qw Hw) with (l := l) as [Hin _].
  - rewrite Hdk. apply tokenize_query_nodup.
  - auto.
  - destruct Hin as (ps & v & Hps & Hv & Hqw); [now rewrite Hdk|].
    exists ps. split; [assumption|]. rewrite Hqw. f_equal. f_equal.
    unfold d in Hv.
    rewrite (dict_get_map_values (fun k => (INR k / INR n)%R)) in Hv.
    rewrite (dict_get_default_in 0 l _ Hl) in Hv. cbn [option_map] in Hv.
    injection Hv as <-. unfold n.
    now rewrite tokenize_query_value, tokenize_query_length.
Qed.

Lemma log_ratio_stale (self : BasicQuery) (postings_list : list posting) :
  total_docs self = 0 -> postings_list <> [] ->
  log_ratio self postings_list = Raise ValueError.
Proof.
  intros Ht Hp. unfold log_ratio. rewrite Ht.
  pose proof (INR_pos_length _ Hp) as Hlen.
  rewrite py_truediv_ok by lra. cbn [rbind]. unfold py_log.
  destruct (Rle_dec (INR 0 / INR (List.length postings_list)) 0) as [_|Hn];
    [reflexivity|].
  exfalso. apply Hn. simpl. unfold Rdiv. rewrite Rmult_0_l. lra.
Qed.

Lemma query_with_stale_lemma
        (self : BasicQuery) (c : store) (query l : string) (row : term_row) :
  total_docs self = 0 ->
  In l (query_lemmas query) ->
  find_one l c = Some row -> docs row <> [] ->
  exists e,
    calculate_cosine_similarity self c query = Raise e /\
    (e = ValueError \/ e = TypeError).
Proof.
  intros Ht Hl Hrow Hdocs. apply tokenize_query_keys in Hl.
  unfold calculate_cosine_similarity, final_scores, process_query.
  rewrite query_tf_ok by apply tokenize_query_nodup. cbn [rbind].
  set (d := map _ (tokenize_query query)).
  assert (Hd : In l (Dict.keys d)).
  { unfold d.
    rewrite (dict_keys_map_values
               (fun k => (INR k / INR (List.length (tokenize_query query)))%R)).
    assumption. }
  assert (Hw : exists e, weigh_query self c d = Raise e /\
                         (e = ValueError \/ e = TypeError)).
  { unfold weigh_query. apply for_each_must_raise with (x0 := l); [assumption | |].
    - intros a x _. unfold postings_of.
      destruct (find_one x c) as [r|]; simpl; [|now right].
      destruct (docs r) as [|p ps] eqn:Hps; simpl; [exact I|].
      rewrite log_ratio_stale by (assumption || discriminate). simpl. now left.
    - intros a. exists ValueError. unfold postings_of. rewrite Hrow. cbn [rbind].
      destruct (docs row) as [|p ps] eqn:Hps; [contradiction|].
      now rewrite log_ratio_stale by (assumption || discriminate). }
  destruct Hw as (e & He & Hkind). exists e. now rewrite He.
Qed.

(** X15.  An engine whose [total_docs] is 0 - created while the collection
    was empty - cannot weigh a lemma that has postings by now: the query
    ends with an exception, [ValueError] from [log(0.0)] unless a lemma
    without a row raised [TypeError] first. *)
Theorem stale_engine_raises
        (self : BasicQuery) (c : store) (query l : string) (row : term_row) :
  total_docs self = 0 ->
  In l (query_lemmas query) ->
  find_one l c = Some row -> docs row <> [] ->
  exists e,
    calculate_cosine_similarity self c query = Raise e /\
    (e = ValueError \/ e = TypeError).
Proof. exact (query_with_stale_lemma self c query l row). Qed.

(* ================================================================ *)
(** ** What the methods leave alone                                   *)
(* ================================================================ *)

(** [keeps f m]: the part [f] of the state is the same after [m]. *)
Definition keeps {A X : Type} (f : state -> X) (m : M A) : Prop :=
  forall s, f (snd (m s)) = f s.

Lemma keeps_bind {A B X : Type} (f : state -> X) (m : M A) (k : A -> M B) :
  keeps f m -> (forall a, keeps f (k a)) -> keeps f (bind m k).
Proof.
  intros Hm Hk s. unfold bind. specialize (Hm s).
  destruct (m s) as [[a|e] s1]; cbn [snd] in *.
  - now rewrite Hk.
  - assumption.
Qed.

Lemma keeps_forM {X Y : Type} (f : state -> Y) (body : X -> M unit) (xs : list X) :
  (forall x, keeps f (body x)) -> keeps f (forM_ body xs).
Proof.
  intros Hb. induction xs as [|x xs IH]; cbn [forM_].
  - intros s. reflexivity.
  - apply keeps_bind; auto.
Qed.

Lemma keeps_mapM {X Y Z : Type} (f : state -> Z) (g : X -> M Y) (xs : list X) :
  (forall x, keeps f (g x)) -> keeps f (mapM g xs).
Proof.
  intros Hg. induction xs as [|x xs IH]; cbn [mapM].
  - intros s. reflexivity.
  - apply keeps_bind; [auto|]. intros y.
    apply keeps_bind; [auto|]. intros ys s. reflexivity.
Qed.

Ltac keeps_step :=
  lazymatch goal with
  | |- keeps _ (bind _ _) => apply keeps_bind; [|intros ?]
  | |- keeps _ (forM_ _ _) => apply keeps_forM; intros ?
  | |- keeps _ (mapM _ _) => apply keeps_mapM; intros ?
  | |- keeps _ (match ?x with _ => _ end) => destruct x
  | |- keeps _ _ => intros ?; reflexivity
  end.

Lemma query_index_keeps (self : BasicQuery) (query : string) :
  keeps collection (query_index self query) /\
  keeps num_documents (query_index self query) /\
  keeps analytics_txt (query_index self query).
Proof.
  unfold query_index, get_url. repeat split; repeat keeps_step.
Qed.

Lemma generate_analytics_keeps :
  keeps collection generate_analytics /\ keeps num_documents generate_analytics.
Proof.
  unfold generate_analytics, BasicQuery_init.
  split;
    repeat lazymatch goal with
           | |- keeps _ (query_index _ _) => apply query_index_keeps
           | _ => keeps_step
           end.
Qed.

Lemma calculate_tf_idf_keeps :
  keeps num_documents calculate_tf_idf /\ keeps analytics_txt calculate_tf_idf.
Proof.
  unfold calculate_tf_idf, tf_idf_updates, bulk_set. split; repeat keeps_step.
Qed.

(** X16.  Whatever their outcome: a query never writes the collection, the
    document counter or the analytics file; the analytics never write the
    collection or the counter; the backfill never writes the counter or the
    analytics file. *)
Theorem methods_leave_alone (s : state) :
  (forall self query,
      collection (snd (query_index self query s)) = collection s /\
      num_documents (snd (query_index self query s)) = num_documents s /\
      analytics_txt (snd (query_index self query s)) = analytics_txt s) /\
  (collection (snd (generate_analytics s)) = collection s /\
   num_documents (snd (generate_analytics s)) = num_documents s) /\
  (num_documents (snd (calculate_tf_idf s)) = num_documents s /\
   analytics_txt (snd (calculate_tf_idf s)) = analytics_txt s).
Proof.
  split; [|split].
  - intros self query.
    destruct (query_index_keeps self query) as (H1 & H2 & H3).
    repeat split; [apply H1 | apply H2 | apply H3].
  - destruct generate_analytics_keeps as [H1 H2]. split; [apply H1 | apply H2].
  - destruct calculate_tf_idf_keeps as [H1 H2]. split; [apply H1 | apply H2].
Qed.

(* ================================================================ *)
(** ** The analytics need the three test words                        *)
(* ================================================================ *)

Lemma query_with_absent_lemma (self : BasicQuery) (c : store) (query l : string) :
  In l (query_lemmas query) -> find_one l c = None ->
  exists e, calculate_cosine_similarity self c query = Raise e.
Proof.
  intros Hl Habs. apply tokenize_query_keys in Hl.
  unfold calculate_cosine_similarity, final_scores, process_query.
  rewrite query_tf_ok by apply tokenize_query_nodup. cbn [rbind].
  set (d := map _ (tokenize_query query)).
  assert (Hd : In l (Dict.keys d)).
  { unfold d.
    rewrite (dict_keys_map_values
               (fun k => (INR k / INR (List.length (tokenize_query query)))%R)).
    assumption. }
  destruct (weigh_query_absent (fun _ => True) self c d l Hd Habs I) as (e & He & _).
  - intros ps _. destruct (log_ratio self ps); exact I.
  - exists e. now rewrite He.
Qed.

Lemma forM_must_raise {X : Type} (body : X -> M unit) (xs : list X) (x0 : X) (s : state) :
  In x0 xs ->
  (forall x, keeps collection (body x)) ->
  (forall s', collection s' = collection s -> exists e, fst (body x0 s') = Raise e) ->
  exists e, fst (forM_ body xs s) = Raise e.
Proof.
  intros Hin Hkeep Hx0. revert s Hx0.
  induction xs as [|x xs IH]; intros s Hx0; [contradiction|].
  cbn [forM_]. unfold bind. pose proof (Hkeep x s) as Hk.
  destruct (body x s) as [[[]|e] s1] eqn:Hb; cbn [fst snd] in *.
  - destruct Hin as [->|Hin].
    + destruct (Hx0 s eq_refl) as [e He]. rewrite Hb in He. discriminate.
    + apply IH; [assumption|]. intros s' Hs'. apply Hx0. congruence.
  - now exists e.
Qed.

(** X17.  The analytics evaluate the queries "informatics", "mondego" and
    "irvine" on the store: when a lemma of one of them has no row,
    [generate_analytics] ends with an exception, with the collection and
    the counter as the earlier phases left them. *)
Theorem analytics_need_test_words (s : state) (query l : string) :
  In query test_queries ->
  In l (query_lemmas query) ->
  find_one l (collection s) = None ->
  exists e,
    fst (generate_analytics s) = Raise e /\
    collection (snd (generate_analytics s)) = collection s /\
    num_documents (snd (generate_analytics s)) = num_documents s.
Proof.
  intros Hq Hl Habs.
  destruct generate_analytics_keeps as [Hc Hn].
  assert (Hraise : exists e, fst (generate_analytics s) = Raise e).
  { unfold generate_analytics.
    unfold bind at 1, get_collection at 1.
    unfold bind at 1, BasicQuery_init. unfold bind at 1, get_collection at 1, ret at 1.
    unfold bind at 1, get_num_documents at 1.
    unfold bind at 1, f_open_w at 1.
    do 7 (unfold bind at 1; first [unfold print at 1 | unfold f_write at 1]).
    match goal with
    | |- exists e, fst (forM_ ?body ?xs ?s1) = Raise e =>
        apply (forM_must_raise body xs query s1 Hq)
    end.
    - intros q.
      repeat lazymatch goal with
             | |- keeps _ (query_index _ _) => apply query_index_keeps
             | _ => keeps_step
             end.
    - intros s' Hs'. cbn [collection] in Hs'.
      destruct (query_with_absent_lemma
                  (mkQuery (List.length (distinct_locations (collection s))))
                  (collection s') query l Hl) as [e He];
        [now rewrite Hs'|].
      exists e. unfold bind at 1. unfold query_index, bind at 1, get_collection at 1.
      unfold bind at 1, lift at 1. now rewrite He. }
  destruct Hraise as [e He]. exists e. split; [assumption|]. split; [apply Hc | apply Hn].
Qed.

(* ================================================================ *)
(** ** A store built from the bookkeeping file                        *)
(* ================================================================ *)






Lemma ranking_locations (self : BasicQuery) (c : store) (query : string)
      (results : list string) (d : string) :
  calculate_cosine_similarity self c query = Ok results ->
  In d results -> In d (distinct_locations c).
Proof.
  intros Hres Hd.
  destruct (calculate_cosine_similarity_ok _ _ _ _ Hres) as (qw & vl & _ & ->).
  rewrite <- firstn_map in Hd. apply firstn_in in Hd.
  set (final := scores_of_hits qw (hits self c (Dict.keys qw))) in *.
  assert (Hperm : Permutation (Dict.keys final) (map fst (sorted_desc final)))
    by apply Permutation_map, sorted_desc_perm.
  apply (Permutation_in _ (Permutation_sym Hperm)) in Hd.
  apply scores_of_hits_keys, hits_docs in Hd as (l & _ & Hp).
  unfold posting_for in Hp.
  destruct (find_one l c) as [row|] eqn:Hrow; [|contradiction].
  destruct (find (fun p => String.eqb (location p) d) (docs row)) as [p|] eqn:Hf;
    [|contradiction].
  apply find_some in Hf as [Hin Hloc]. apply String.eqb_eq in Hloc.
  apply find_one_in in Hrow as [Hrow _].
  unfold distinct_locations. apply nodup_In, in_flat_map.
  exists row. split; [assumption|]. rewrite <- Hloc. now apply in_map.
Qed.

Lemma query_index_found (self : BasicQuery) (query : string) (s : state)
      (results : list string) (data : Dict.t string) :
  calculate_cosine_similarity self (collection s) query = Ok results ->
  bookkeeping_json E = FileJson data ->
  (forall d, In d results -> In d (Dict.keys data)) ->
  query_index self query s =
  (Ok (map format_url (map (fun d => Dict.get_default EmptyString d data) results)), s).
Proof.
  intros Hres Hb Hall.
  unfold query_index, bind at 1, get_collection at 1.
  unfold bind at 1, lift at 1. rewrite Hres. unfold bind at 1.
  destruct results as [|r results]; [reflexivity|].
  rewrite (mapM_get_url_found data) by assumption.
  unfold lift.
  rewrite <- (map_map (fun d => Dict.get_default EmptyString d data) Some).
  now rewrite format_urls_some.
Qed.


(* ================================================================ *)
(** ** A build on a corpus without the test words                     *)
(* ================================================================ *)




(* ================================================================ *)
(** ** When a query evaluates                                         *)
(* ================================================================ *)

Lemma for_each_ok {A X : Type} (body : A -> X -> result A) (xs : list X) (acc : A) :
  (forall a x, In x xs -> exists b, body a x = Ok b) ->
  exists b, for_each body xs acc = Ok b.
Proof.
  revert acc. induction xs as [|x xs IH]; intros acc Hbody.
  - now exists acc.
  - cbn [for_each]. destruct (Hbody acc x (or_introl eq_refl)) as [b Hb].
    rewrite Hb. cbn [rbind]. apply IH. intros a y Hy. apply Hbody. now right.
Qed.

Lemma ln_ratio_nonzero (t n : nat) :
  0 < t -> 0 < n -> n <> t -> ln (INR t / INR n) <> 0%R.
Proof.
  intros Ht Hn Hne.
  assert (Hn0 : INR n <> 0%R) by (apply not_0_INR; lia).
  apply ln_neq_0.
  - intros H. apply Hne. apply INR_eq.
    replace (INR t) with (INR t / INR n * INR n)%R by (field; assumption).
    rewrite H. ring.
  - apply Rdiv_lt_0_compat; apply lt_0_INR; assumption.
Qed.

Lemma query_with_saturated_lemma
      (self : BasicQuery) (c : store) (query l : string) (row : term_row) :
  In l (query_lemmas query) ->
  find_one l c = Some row -> docs row <> [] ->
  List.length (docs row) = total_docs self ->
  exists e, calculate_cosine_similarity self c query = Raise e.
Proof.
  intros Hl Hrow Hne Hlen.
  unfold calculate_cosine_similarity, final_scores.
  destruct (process_query self c query) as [[query_tfidf vector_length]|e] eqn:Hpq;
    [|now exists e].
  cbn [rbind].
  assert (Ht : 0 < total_docs self).
  { rewrite <- Hlen. destruct (docs row); simpl; [contradiction | lia]. }
  destruct (process_query_keys _ _ _ _ _ Hpq) as [Hkeys Hrows].
  assert (Hloop : exists e, score_postings self c query_tfidf = Raise e /\ True).
  { unfold score_postings. apply for_each_must_raise with (x0 := l).
    - rewrite Hkeys. now apply tokenize_query_keys.
    - intros a x _. cbn beta. destruct (rbind _ _); exact I.
    - intros a. exists ZeroDivisionError. unfold postings_of. rewrite Hrow.
      cbn [rbind]. destruct (docs row) as [|doc ps] eqn:Hd; [contradiction|].
      cbn [for_each]. rewrite score_posting_saturated; [reflexivity | discriminate |].
      exact Hlen. }
  destruct Hloop as (e & He & _). exists e. now rewrite He.
Qed.

(** [answerable self c l]: the lemma has a row, and its postings list is
    empty or of a length other than [total_docs], which is not 0. *)
Definition answerable (self : BasicQuery) (c : store) (l : string) : Prop :=
  exists row,
    find_one l c = Some row /\
    (docs row = [] \/
     (0 < total_docs self /\ List.length (docs row) <> total_docs self)).

Lemma answerable_weigh (self : BasicQuery) (c : store) (xs : list string)
      (acc : Dict.t R) :
  (forall l, In l xs -> answerable self c l) ->
  exists acc',
    for_each
      (fun acc l =>
         let? postings_list := postings_of c l in
         let? doc_freq := match postings_list with
                          | [] => Ok 0%R
                          | _ :: _ => log_ratio self postings_list
                          end in
         Ok (Dict.update 0%R l (fun v => (v * doc_freq)%R) acc))
      xs acc = Ok acc'.
Proof.
  intros Hans. apply for_each_ok. intros a x Hx.
  destruct (Hans x Hx) as (row & Hrow & Hdocs).
  unfold postings_of. rewrite Hrow. cbn [rbind].
  destruct (docs row) as [|p ps] eqn:Hd.
  - cbn [rbind]. eexists. reflexivity.
  - destruct Hdocs as [Hnil|[Ht _]]; [discriminate|].
    rewrite log_ratio_ok by (assumption || discriminate).
    cbn [rbind]. eexists. reflexivity.
Qed.

Lemma answerable_score (self : BasicQuery) (c : store) (xs : list string)
      (acc : accumulators) :
  (forall l, In l xs -> answerable self c l) ->
  exists acc',
    for_each
      (fun acc l =>
         let? postings_list := postings_of c l in
         for_each (score_posting self l postings_list) postings_list acc)
      xs acc = Ok acc'.
Proof.
  intros Hans. apply for_each_ok. intros a x Hx.
  destruct (Hans x Hx) as (row & Hrow & Hdocs).
  unfold postings_of. rewrite Hrow. cbn [rbind].
  apply for_each_ok. intros a' doc Hdoc.
  destruct Hdocs as [Hnil|[Ht Hlen]]; [rewrite Hnil in Hdoc; contradiction|].
  assert (Hne : docs row <> []) by (intros H; rewrite H in Hdoc; contradiction).
  unfold score_posting. rewrite log_ratio_ok by assumption. cbn [rbind].
  rewrite py_truediv_ok.
  - cbn [rbind]. eexists. reflexivity.
  - apply ln_ratio_nonzero; [assumption | | assumption].
    destruct (docs row); [contradiction | simpl; lia].
Qed.

Lemma answerable_query_evaluates (self : BasicQuery) (c : store) (query : string) :
  (forall l, In l (query_lemmas query) -> answerable self c l) ->
  exists results, calculate_cosine_similarity self c query = Ok results.
Proof.
  intros Hans.
  assert (Hpq : exists query_tfidf vector_length,
             process_query self c query = Ok (query_tfidf, vector_length)).
  { unfold process_query.
    rewrite query_tf_ok by apply tokenize_query_nodup. cbn [rbind].
    unfold weigh_query.
    match goal with
    | |- context [for_each ?body ?xs ?acc] =>
        destruct (answerable_weigh self c xs acc) as [acc' Hacc]
    end.
    - intros l Hl. apply Hans, tokenize_query_keys.
      now rewrite (dict_keys_map_values
                     (fun k => (INR k / INR (List.length (tokenize_query query)))%R))
        in Hl.
    - rewrite Hacc. cbn [rbind]. eexists. eexists. reflexivity. }
  destruct Hpq as (query_tfidf & vector_length & Hpq).
  destruct (process_query_keys _ _ _ _ _ Hpq) as [Hkeys _].
  unfold calculate_cosine_similarity, final_scores. rewrite Hpq. cbn [rbind].
  unfold score_postings.
  destruct (answerable_score self c (Dict.keys query_tfidf) (mkAcc [] []))
    as [acc Hacc].
  - intros l Hl. apply Hans, tokenize_query_keys. now rewrite <- Hkeys.
  - rewrite Hacc. cbn [rbind]. eexists. reflexivity.
Qed.

(** X21.  A query evaluates exactly when every one of its lemmas has a row
    whose postings list is empty, or is of a length other than
    [total_docs] with [total_docs] above 0.  In every other case - a lemma
    without a row, an engine created on an empty collection, a lemma that
    occurs in every document - [calculate_cosine_similarity] ends with an
    exception. *)
Theorem query_evaluates_iff (self : BasicQuery) (c : store) (query : string) :
  (exists results, calculate_cosine_similarity self c query = Ok results) <->
  (forall l, In l (query_lemmas query) -> answerable self c l).
Proof.
  split.
  - intros [results Hres] l Hl.
    destruct (find_one l c) as [row|] eqn:Hrow.
    + exists row. split; [exact Hrow|].
      destruct (docs row) as [|p ps] eqn:Hd; [now left | right].
      assert (Hne : docs row <> []) by (rewrite Hd; discriminate).
      split.
      * destruct (total_docs self) eqn:Ht; [|lia]. exfalso.
        destruct (query_with_stale_lemma self c query l row Ht Hl Hrow Hne)
          as (e & He & _).
        rewrite He in Hres. discriminate.
      * intros Hlen. rewrite <- Hd in Hlen.
        destruct (query_with_saturated_lemma self c query l row Hl Hrow Hne Hlen)
          as [e He].
        rewrite He in Hres. discriminate.
    + destruct (query_with_absent_lemma self c query l Hl Hrow) as [e He].
      rewrite He in Hres. discriminate.
  - apply answerable_query_evaluates.
Qed.

(* ================================================================ *)
(** ** The document counter and the distinct locations                *)
(* ================================================================ *)







(* ================================================================ *)
(** ** The sign of the backfilled idf                                 *)
(* ================================================================ *)




(* ================================================================ *)
(** ** The analytics file                                             *)
(* ================================================================ *)

Lemma mapM_length {X Y : Type} (f : X -> M Y) (xs : list X) (s s' : state)
      (ys : list Y) :
  mapM f xs s = (Ok ys, s') -> List.length ys = List.length xs.
Proof.
  revert s s' ys. induction xs as [|x xs IH]; intros s s' ys H; cbn [mapM] in H.
  - unfold ret in H. injection H as <- _. reflexivity.
  - unfold bind at 1 in H. destruct (f x s) as [[y|e] s1]; [|discriminate].
    unfold bind at 1 in H.
    destruct (mapM f xs s1) as [[ys'|e] s2] eqn:Hm; [|discriminate].
    unfold ret in H. injection H as <- _. cbn [List.length]. f_equal.
    exact (IH _ _ _ Hm).
Qed.

Lemma format_urls_length (urls : list (option string)) (full_urls : list string) :
  format_urls urls = Ok full_urls -> List.length full_urls = List.length urls.
Proof.
  intros H. destruct (none_in_or_not urls) as [Hn|Hn].
  - rewrite (format_urls_none urls Hn) in H. discriminate.
  - destruct (all_some urls Hn) as [us ->].
    rewrite format_urls_some in H. injection H as <-. now rewrite !length_map.
Qed.

Lemma ranking_length (self : BasicQuery) (c : store) (query : string)
      (results : list string) :
  calculate_cosine_similarity self c query = Ok results ->
  List.length results <= 20.
Proof.
  intros H.
  destruct (calculate_cosine_similarity_ok _ _ _ _ H) as (query_tfidf & vl & _ & ->).
  rewrite length_map. apply firstn_le_length.
Qed.

Lemma query_index_length (self : BasicQuery) (query : string) (s : state)
      (urls : list string) :
  fst (query_index self query s) = Ok urls -> List.length urls <= 20.
Proof.
  unfold query_index, bind at 1, get_collection at 1.
  unfold bind at 1, lift at 1.
  destruct (calculate_cosine_similarity self (collection s) query)
    as [results|e] eqn:Hres; [|discriminate].
  apply ranking_length in Hres. unfold bind at 1.
  destruct results as [|r rs].
  - unfold ret at 1, lift. cbn [fst]. intros H. apply format_urls_length in H.
    rewrite H. cbn [List.length]. lia.
  - destruct (mapM get_url (r :: rs) s) as [[opts|e] s1] eqn:Hm; [|discriminate].
    unfold lift. cbn [fst]. intros H.
    apply format_urls_length in H. apply mapM_length in Hm. lia.
Qed.

Lemma forM_f_write (urls : list string) (s : state) :
  forM_ (fun url => f_write (Text url)) urls s =
  (Ok tt, mkState (collection s) (num_documents s) (stdout s)
                  (analytics_txt s ++ map Text urls)).
Proof.
  revert s. induction urls as [|u urls IH]; intros s; cbn [forM_ map].
  - unfold ret. rewrite app_nil_r. now destruct s.
  - unfold bind, f_write at 1. rewrite IH.
    cbn [collection num_documents stdout analytics_txt].
    now rewrite <- app_assoc.
Qed.

(** The lines [generate_analytics] writes before the loop, and for one
    query. *)
Definition report_header (n : nat) (db_size : R) (unique_words : nat) : list line :=
  [Text "Analytics for Milestone #1";
   TextNat "Total number of documents: " n "";
   TextReal "Total size of index on disk: " db_size " KB";
   TextNat "Number of unique words: " unique_words "";
   Text "Testing Queries"].

Definition report_block (query : string) (urls : list string) : list line :=
  [Text (String.append "Query: " query);
   TextNat "Number of URLs retrieved: " (List.length urls) "";
   Text "First 20 URLs:"]
  ++ map Text urls ++ [Text ""].

Definition report_blocks (queries : list string) (rs : list (list string)) : list line :=
  List.concat (map (fun qr => report_block (fst qr) (snd qr)) (combine queries rs)).

Lemma analytics_loop (query_engine : BasicQuery) (c : store)
      (queries : list string) (rs : list (list string)) :
  Forall2 (fun query urls =>
             forall s, collection s = c ->
                       fst (query_index query_engine query s) = Ok urls)
          queries rs ->
  forall s,
    collection s = c ->
    exists out,
      forM_ (fun query =>
               results <- query_index query_engine query ;;
               f_write (Text (String.append "Query: " query)) ;;
               f_write (TextNat "Number of URLs retrieved: " (List.length results) "") ;;
               f_write (Text "First 20 URLs:") ;;
               forM_ (fun url => f_write (Text url)) (firstn 20 results) ;;
               f_write (Text ""))
            queries s
      = (Ok tt, mkState c (num_documents s) out
                        (analytics_txt s ++ report_blocks queries rs)).
Proof.
  induction 1 as [|query urls queries rs Hq _ IH]; intros s Hs.
  - exists (stdout s). cbn [forM_]. unfold ret, report_blocks. cbn [combine map List.concat].
    rewrite app_nil_r, <- Hs. now destruct s.
  - cbn [forM_]. unfold bind at 1. unfold bind at 1.
    pose proof (Hq s Hs) as Hfst.
    destruct (query_index_keeps query_engine query) as (Hc & Hn & Ha).
    specialize (Hc s). specialize (Hn s). specialize (Ha s).
    pose proof (query_index_length query_engine query s urls Hfst) as Hlen.
    destruct (query_index query_engine query s) as [[results|e] s1];
      cbn [fst snd] in *; [|discriminate].
    injection Hfst as ->.
    unfold bind at 1, f_write at 1. unfold bind at 1, f_write at 1.
    unfold bind at 1, f_write at 1. unfold bind at 1.
    rewrite firstn_all2 by assumption. rewrite forM_f_write.
    unfold f_write at 1.
    cbn [collection num_documents stdout analytics_txt].
    match goal with
    | |- context [forM_ _ queries ?s2] => destruct (IH s2) as [out Hout]
    end.
    { cbn [collection]. congruence. }
    rewrite Hout. exists out.
    cbn [collection num_documents stdout analytics_txt].
    rewrite Hn, Ha. unfold report_blocks. cbn [combine map List.concat fst snd].
    unfold report_block. f_equal. f_equal.
    repeat rewrite <- app_assoc. reflexivity.
Qed.

Lemma forall2_forall {A B : Type} (R : A -> B -> Prop) (P : B -> Prop)
      (xs : list A) (ys : list B) :
  (forall x y, R x y -> P y) -> Forall2 R xs ys -> Forall P ys.
Proof.
  intros HRP H. induction H; constructor; eauto.
Qed.

(** X24.  When the three test queries evaluate on the store,
    [generate_analytics] returns, and [analytics.txt] holds - in place of
    whatever it held - the title, the document counter, the size, the
    number of distinct lemmas, and for each test query in turn its text,
    the number of its urls and then every one of them: a result list has at
    most 20 urls, so the slice [results[:20]] drops none. *)
Theorem analytics_report (s : state) (rs : list (list string)) :
  Forall2 (fun query urls =>
             fst (query_index (mkQuery (List.length (distinct_locations (collection s))))
                              query s) = Ok urls)
          test_queries rs ->
  fst (generate_analytics s) = Ok tt /\
  analytics_txt (snd (generate_analytics s)) =
    report_header (num_documents s) (data_size E (collection s) / 1024)
                  (List.length (distinct_lemmas (collection s)))
    ++ report_blocks test_queries rs /\
  Forall (fun urls => List.length urls <= 20) rs.
Proof.
  intros Hrs. set (engine := mkQuery _) in Hrs.
  assert (Hlen : Forall (fun urls => List.length urls <= 20) rs).
  { apply (forall2_forall _ _ _ _ (fun q urls => query_index_length engine q s urls) Hrs). }
  assert (Hall : Forall2 (fun query urls =>
                            forall s', collection s' = collection s ->
                                       fst (query_index engine query s') = Ok urls)
                         test_queries rs).
  { revert Hrs. apply Forall2_impl. intros q urls Hq s' Hs'.
    destruct (query_index_query_like engine q s' s Hs') as [-> _]. exact Hq. }
  assert (Hrun : exists out,
             generate_analytics s =
             (Ok tt,
              mkState (collection s) (num_documents s) out
                      (report_header (num_documents s) (data_size E (collection s) / 1024)
                                     (List.length (distinct_lemmas (collection s)))
                       ++ report_blocks test_queries rs))).
  { unfold generate_analytics.
    unfold bind at 1, get_collection at 1.
    unfold bind at 1, BasicQuery_init. unfold bind at 1, get_collection at 1, ret at 1.
    unfold bind at 1, get_num_documents at 1.
    unfold bind at 1, f_open_w at 1.
    do 7 (unfold bind at 1; first [unfold print at 1 | unfold f_write at 1]).
    cbn [collection num_documents stdout analytics_txt].
    fold engine.
    match goal with
    | |- context [forM_ _ test_queries ?s1] =>
        destruct (analytics_loop engine (collection s) test_queries rs Hall s1 eq_refl)
          as [out Hout]
    end.
    rewrite Hout. exists out. cbn [analytics_txt num_documents].
    unfold report_header. repeat rewrite <- app_assoc. reflexivity. }
  destruct Hrun as [out ->]. cbn [fst snd analytics_txt].
  repeat split. exact Hlen.
Qed.

(* ================================================================ *)
(** ** The numbers in a posting                                       *)
(* ================================================================ *)

Lemma tag_weight_bounds (name : string) :
  (1 / 10 <= tag_weight name <= 6 / 10)%R.
Proof.
  unfold tag_weight, Dict.get_default, htmlWeights. cbn [Dict.get].
  repeat match goal with
         | |- context [if String.eqb ?a name then _ else _] =>
             destruct (String.eqb a name)
         end; lra.
Qed.

Lemma occurrences_bounds (soup : list tag) (o : string * R) :
  In o (occurrences soup) -> (1 / 10 <= snd o <= 6 / 10)%R.
Proof.
  unfold occurrences, occurrences_of_tag. intros H.
  apply in_flat_map in H as (t & _ & H).
  apply in_map_iff in H as (l & <- & _). apply tag_weight_bounds.
Qed.

Lemma Rsum_bounds (a b : R) (vs : list R) :
  (forall v, In v vs -> (a <= v <= b)%R) ->
  (a * INR (List.length vs) <= Rsum vs <= b * INR (List.length vs))%R.
Proof.
  induction vs as [|v vs IH]; intros H.
  - simpl. lra.
  - change (Rsum (v :: vs)) with (v + Rsum vs)%R.
    change (List.length (v :: vs)) with (S (List.length vs)). rewrite S_INR.
    pose proof (H v (or_introl eq_refl)).
    assert (Hvs : forall v', In v' vs -> (a <= v' <= b)%R)
      by (intros v' Hv'; apply H; now right).
    specialize (IH Hvs). lra.
Qed.

(** X26.  Every posting [add_to_index] pushes for a document stands for a
    lemma that was counted at least once, so its tf is above 0; and its
    html weight lies between 0.1 and 0.6 times the number of occurrences of
    the lemma, 0.1 being the weight of an unlisted tag and 0.6 that of
    [title]. *)
Theorem pushed_posting_bounds (soup : list tag) (doc_id : string) :
  exists updates,
    posting_updates doc_id (process_document soup) = Ok updates /\
    forall l p,
      In (l, p) updates ->
      1 <= count_occ string_dec (document_lemmas soup) l /\
      (0 < tf p)%R /\
      (INR (count_occ string_dec (document_lemmas soup) l) / 10 <= html_weight p
       <= 6 * INR (count_occ string_dec (document_lemmas soup) l) / 10)%R.
Proof.
  rewrite posting_updates_ok. eexists. split; [reflexivity|].
  intros l p Hin. apply in_map_iff in Hin as ([x data] & Heq & Hitem).
  unfold posting_of in Heq. cbn [fst snd] in Heq. injection Heq as <- <-.
  cbn [tf html_weight].
  assert (Hx : In x (document_lemmas soup)).
  { apply process_document_keys. unfold Dict.keys.
    change x with (fst (x, data)). now apply in_map. }
  assert (Hcount : 1 <= count_occ string_dec (document_lemmas soup) x)
    by now apply count_occ_In.
  assert (Hn : 0 < List.length (process_document soup)).
  { destruct (process_document soup); [contradiction | simpl; lia]. }
  apply process_document_item in Hitem. rewrite process_document_value in Hitem.
  subst data. cbn [freq data_html_weight].
  split; [assumption|]. split.
  - apply Rdiv_lt_0_compat; apply lt_0_INR; lia.
  - pose proof (Rsum_bounds (1 / 10) (6 / 10)
                  (map snd (filter (fun o => String.eqb (fst o) x) (occurrences soup))))
      as Hb.
    rewrite length_map in Hb.
    rewrite <- (length_map fst), occurrences_of_lemma in Hb.
    rewrite <- count_occ_filter in Hb.
    assert (Hall : forall v,
               In v (map snd (filter (fun o => String.eqb (fst o) x) (occurrences soup))) ->
               (1 / 10 <= v <= 6 / 10)%R).
    { intros v Hv. apply in_map_iff in Hv as (o & <- & Ho).
      apply filter_In in Ho as [Ho _]. now apply (occurrences_bounds soup). }
    specialize (Hb Hall). lra.
Qed.

End Engine.

(* ================================================================== *)
(** ** The statements on the two-document corpus                        *)
(* ================================================================== *)

(** C7, counterexample.  The query "fox 42" has the token "42", and no query
    lemma comes from it: the numeric filter is applied on the query side
    too. *)
Lemma numeric_query_token_is_discarded :
  In "42" (query_tokens split_blanks "fox 42") /\
  Dict.keys (tokenize_query split_blanks no_stem "fox 42") = ["fox"] /\
  ~ In (no_stem "42") (Dict.keys (tokenize_query split_blanks no_stem "fox 42")).
Proof.
  split; [right; left; reflexivity|]. split; [reflexivity|].
  intros [H|[]]. discriminate.
Qed.

(** C8, counterexample.  In [<p>fox fox</p>] one tag contains the lemma, so
    the sum over the containing tags is 0.1, and the code stores 0.2. *)
Lemma repeated_lemma_counts_twice :
  html_weight_once_per_tag split_blanks no_stem [] soup_fox_fox "fox" = (1 / 10)%R /\
  data_html_weight
    (Dict.get_default (mkData 0 0%R) "fox"
       (process_document split_blanks no_stem [] soup_fox_fox)) = (2 / 10)%R /\
  data_html_weight
    (Dict.get_default (mkData 0 0%R) "fox"
       (process_document split_blanks no_stem [] soup_fox_fox)) <>
  html_weight_once_per_tag split_blanks no_stem [] soup_fox_fox "fox".
Proof.
  assert (H1 : html_weight_once_per_tag split_blanks no_stem [] soup_fox_fox "fox"
               = (1 / 10)%R).
  { unfold html_weight_once_per_tag.
    change (filter _ soup_fox_fox) with soup_fox_fox.
    unfold soup_fox_fox, Rsum. cbn [map fold_right tag_name].
    change (tag_weight "p") with (1 / 10)%R. lra. }
  assert (H2 : data_html_weight
                 (Dict.get_default (mkData 0 0%R) "fox"
                    (process_document split_blanks no_stem [] soup_fox_fox))
               = (2 / 10)%R).
  { change (process_document split_blanks no_stem [] soup_fox_fox)
      with [("fox", mkData 2 (0 + tag_weight "p" + tag_weight "p")%R)].
    change (tag_weight "p") with (1 / 10)%R.
    cbn [Dict.get_default Dict.get String.eqb data_html_weight]. simpl. lra. }
  split; [assumption|]. split; [assumption|]. rewrite H1, H2. lra.
Qed.

(** *** Evaluating the query "fox" *)

Lemma log_ratio_two_one (ps : list posting) :
  List.length ps = 1 -> log_ratio (mkQuery 2) ps = Ok (ln (INR 2 / INR 1)).
Proof.
  intros H. rewrite log_ratio_ok; simpl; try lia.
  - now rewrite H.
  - intros ->. discriminate.
Qed.

Lemma ln_two_nonzero : ln (INR 2 / INR 1) <> 0%R.
Proof. apply ln_neq_0; simpl; lra. Qed.

Lemma process_query_fox :
  process_query split_blanks no_stem (mkQuery 2) store_built "fox" =
  Ok (fox_weights, vector_length_of fox_weights).
Proof.
  unfold process_query.
  change (tokenize_query split_blanks no_stem "fox") with [("fox", 1)].
  unfold query_tf. cbn [for_each List.length].
  rewrite py_truediv_ok by (simpl; lra).
  cbn [rbind for_each]. unfold weigh_query.
  cbn [Dict.set Dict.keys map fst for_each].
  change (postings_of store_built "fox")
    with (Ok [mkPosting "0/1" 1 (7 / 10) (Some (1 * ln 2)%R)]).
  cbn [rbind]. rewrite log_ratio_two_one by reflexivity.
  reflexivity.
Qed.

Lemma ranking_fox :
  calculate_cosine_similarity split_blanks no_stem (mkQuery 2) store_built "fox" =
  Ok ["0/1"].
Proof.
  unfold calculate_cosine_similarity, final_scores.
  rewrite process_query_fox. cbn [rbind].
  unfold score_postings. cbn [fox_weights Dict.keys map fst for_each].
  change (postings_of store_built "fox")
    with (Ok [mkPosting "0/1" 1 (7 / 10) (Some (1 * ln 2)%R)]).
  cbn [rbind for_each]. unfold score_posting.
  rewrite log_ratio_two_one by reflexivity. cbn [rbind].
  rewrite py_truediv_ok by apply ln_two_nonzero.
  reflexivity.
Qed.


Lemma store_built_wf : store_wf store_built.
Proof.
  split.
  - repeat constructor; simpl; intuition discriminate.
  - intros r Hr. simpl in Hr.
    repeat (destruct Hr as [<-|Hr]; [repeat constructor; simpl; tauto|]).
    contradiction.
Qed.

Lemma store_phase1_wf : store_wf store_phase1.
Proof.
  split.
  - repeat constructor; simpl; intuition discriminate.
  - intros r Hr. simpl in Hr.
    repeat (destruct Hr as [<-|Hr]; [repeat constructor; simpl; tauto|]).
    contradiction.
Qed.

(** C2, on the corpus: "cat" was never indexed, and the query "cat" ends
    with [TypeError]. *)
Lemma absent_lemma_raises_witness :
  calculate_cosine_similarity split_blanks no_stem (mkQuery 2) store_built "cat" =
  Raise TypeError.
Proof.
  refine (proj2 (absent_lemma_raises split_blanks no_stem (mkQuery 2) store_built
                   "cat" "cat" _ _) _).
  - left. reflexivity.
  - reflexivity.
  - simpl. lia.
Defined.

(** C3, on the corpus: "fox" ranks document [0/1], the bookkeeping file has
    no entry for it, and the query as a whole raises. *)
Lemma unresolved_document_raises_witness :
  exists e s',
    query_index split_blanks no_stem env_missing_entry (mkQuery 2) "fox" state_built
    = (Raise e, s') /\
    (e = KeyError \/ e = AttributeError).
Proof.
  apply (unresolved_document_raises split_blanks no_stem env_missing_entry
           (mkQuery 2) "fox" state_built ["0/1"] "0/1").
  - exact ranking_fox.
  - left. reflexivity.
  - reflexivity.
Defined.

(** C4, on the corpus: the ranking of the query "fox". *)
Lemma cosine_ranking_witness :
  exists ranked : list (string * R),
    ["0/1"] = map fst (firstn 20 ranked) /\
    StronglySorted score_ge ranked /\
    NoDup (map fst ranked) /\
    (forall d, In d (map fst ranked) <-> is_candidate store_built fox_weights d) /\
    (forall d sc, In (d, sc) ranked ->
                  sc = spec_score (mkQuery 2) store_built fox_weights d).
Proof.
  apply (cosine_ranking split_blanks no_stem (mkQuery 2) store_built "fox"
           fox_weights (vector_length_of fox_weights) ["0/1"]).
  - exact store_built_wf.
  - exact process_query_fox.
  - exact ranking_fox.
Defined.



(** *** The corpus, end to end *)

Lemma process_document_fox :
  process_document split_blanks no_stem [] soup_fox =
  [("fox", mkData 2 (0 + tag_weight "title" + tag_weight "p")%R);
   ("jumps", mkData 1 (0 + tag_weight "p")%R)].
Proof. reflexivity. Qed.

Lemma process_document_dog :
  process_document split_blanks no_stem [] soup_dog =
  [("dog", mkData 1 (0 + tag_weight "p")%R);
   ("sleeps", mkData 1 (0 + tag_weight "p")%R)].
Proof. reflexivity. Qed.

(** Phase 1 over the manifest ["0/1"; "0/2"], from the empty collection. *)
Example phase1_on_corpus :
  exists s1,
    forM_ (process_dir split_blanks no_stem [] env_corpus) ["0/1"; "0/2"] state_empty
    = (Ok tt, s1) /\
    collection s1 = store_phase1.
Proof.
  cbn [forM_]. unfold bind at 1.
  change (process_dir split_blanks no_stem [] env_corpus "0/1" state_empty)
    with (add_to_index (process_document split_blanks no_stem [] soup_fox)
                       "0" "1" state_empty).
  destruct (add_to_index_run (process_document split_blanks no_stem [] soup_fox)
                             "0" "1" state_empty) as [H1 H2].
  destruct (add_to_index _ "0" "1" state_empty) as [r1 s1].
  cbn [fst snd] in *. subst r1.
  unfold bind at 1.
  change (process_dir split_blanks no_stem [] env_corpus "0/2" s1)
    with (add_to_index (process_document split_blanks no_stem [] soup_dog) "0" "2" s1).
  destruct (add_to_index_run (process_document split_blanks no_stem [] soup_dog)
                             "0" "2" s1) as [H3 H4].
  destruct (add_to_index _ "0" "2" s1) as [r2 s2].
  cbn [fst snd] in *. subst r2.
  exists s2. split; [reflexivity|].
  rewrite H4, H2. clear.
  rewrite process_document_fox, process_document_dog.
  change (tag_weight "title") with (6 / 10)%R.
  change (tag_weight "p") with (1 / 10)%R.
  unfold store_phase1.
  cbn [bulk_push fold_left map posting_of push_posting fst snd freq data_html_weight
       collection state_empty List.length String.eqb Ascii.eqb Bool.eqb lemma docs app
       String.append].
  repeat (f_equal; try (simpl; lra)).
Qed.

(** Phase 2 on the store phase 1 left. *)
Example phase2_on_corpus :
  exists s2, calculate_tf_idf state_phase1 = (Ok tt, s2) /\ collection s2 = store_built.
Proof.
  destruct (calculate_tf_idf_run state_phase1 store_phase1_wf) as [out Hrun].
  eexists. split; [exact Hrun|]. cbn [collection state_phase1].
  change (List.length (distinct_locations store_phase1)) with 2.
  unfold store_phase1, store_built, backfill_row, backfilled, idf_value.
  cbn [map docs lemma List.length Nat.ltb Nat.leb location tf html_weight].
  replace (INR 2 / INR 1)%R with 2%R by (simpl; lra).
  reflexivity.
Qed.

(** The query "fox" on the built store returns the url of [0/1] and not
    that of [0/2]. *)
Example query_fox_on_corpus :
  query_index split_blanks no_stem env_corpus (mkQuery 2) "fox" state_built =
  (Ok ["http://www.ics.uci.edu/fox"], state_built).
Proof.
  unfold query_index, bind at 1, get_collection at 1.
  unfold bind at 1, lift at 1. cbn [collection state_built].
  rewrite ranking_fox. reflexivity.
Qed.

(** The same query when the bookkeeping file cannot be opened: [get_url]
    reports it and returns [None], and [format_urls] raises. *)
Example query_fox_without_bookkeeping :
  query_index split_blanks no_stem env_missing_file (mkQuery 2) "fox" state_built =
  (Raise AttributeError,
   mkState store_built 2
           [Text "Error: File WEBPAGES_RAW/bookkeeping.json not found"] []).
Proof.
  unfold query_index, bind at 1, get_collection at 1.
  unfold bind at 1, lift at 1. cbn [collection state_built].
  rewrite ranking_fox. reflexivity.
Qed.

(** The same query when the bookkeeping file has no entry for [0/1]. *)
Example query_fox_without_entry :
  query_index split_blanks no_stem env_missing_entry (mkQuery 2) "fox" state_built =
  (Raise KeyError, state_built).
Proof.
  unfold query_index, bind at 1, get_collection at 1.
  unfold bind at 1, lift at 1. cbn [collection state_built].
  rewrite ranking_fox. reflexivity.
Qed.

(** *** Further statements on the corpus *)

(** X3, on the corpus: the ranking of "fox". *)
Lemma ranking_is_bounded_and_grounded_witness :
  List.length ["0/1"] <= 20 /\
  NoDup ["0/1"] /\
  forall d, In d ["0/1"] ->
            exists l row p,
              In l (query_lemmas split_blanks no_stem "fox") /\
              find_one l store_built = Some row /\
              In p (docs row) /\ location p = d.
Proof.
  apply (ranking_is_bounded_and_grounded split_blanks no_stem (mkQuery 2) store_built
           "fox" ["0/1"]).
  exact ranking_fox.
Defined.

(** X4, on the query "42 7" and a missing bookkeeping file. *)
Lemma query_without_lemmas_is_empty_witness :
  (forall c, calculate_cosine_similarity split_blanks no_stem (mkQuery 2) c "42 7" = Ok []) /\
  (forall s, query_index split_blanks no_stem env_missing_file (mkQuery 2) "42 7" s
             = (Ok [], s)).
Proof.
  apply (query_without_lemmas_is_empty split_blanks no_stem env_missing_file
           (mkQuery 2) "42 7").
  reflexivity.
Defined.

(** X5, on the corpus: the query "fox" with the complete bookkeeping file. *)
Lemma query_index_resolves_ranking_witness :
  exists urls,
    query_index split_blanks no_stem env_corpus (mkQuery 2) "fox" state_built
    = (Ok urls, state_built) /\
    List.length urls = List.length ["0/1"] /\
    List.length urls <= 20 /\
    forall i d,
      nth_error ["0/1"] i = Some d ->
      exists u u',
        Dict.get d [("0/1", "www.ics.uci.edu/fox"); ("0/2", "www.ics.uci.edu/dog")]
        = Some u /\
        nth_error urls i = Some u' /\
        has_protocol u' = true /\
        (u' = u \/ (has_protocol u = false /\ u' = String.append "http://" u)).
Proof.
  apply (query_index_resolves_ranking split_blanks no_stem env_corpus (mkQuery 2)
           "fox" state_built ["0/1"]
           [("0/1", "www.ics.uci.edu/fox"); ("0/2", "www.ics.uci.edu/dog")]).
  - exact ranking_fox.
  - reflexivity.
  - intros d [<-|[]]. left. reflexivity.
Defined.



(** X12, on the vectors of two documents. *)
Lemma normalize_doc_tfidf_norms_witness :
  normalize_doc_tfidf [("0/1", [("fox", 3%R); ("jumps", 4%R)]); ("0/2", [("dog", 0%R)])] =
    map (fun item => (fst item, euclidean_norm (Dict.values (snd item))))
        [("0/1", [("fox", 3%R); ("jumps", 4%R)]); ("0/2", [("dog", 0%R)])] /\
  (forall doc_id len,
      In (doc_id, len)
         (normalize_doc_tfidf
            [("0/1", [("fox", 3%R); ("jumps", 4%R)]); ("0/2", [("dog", 0%R)])]) ->
      exists data,
        In (doc_id, data)
           [("0/1", [("fox", 3%R); ("jumps", 4%R)]); ("0/2", [("dog", 0%R)])] /\
        (0 <= len)%R /\
        (len = 0%R <-> Forall (fun v => v = 0%R) (Dict.values data))).
Proof.
  apply (normalize_doc_tfidf_norms
           [("0/1", [("fox", 3%R); ("jumps", 4%R)]); ("0/2", [("dog", 0%R)])]).
  repeat constructor; simpl; intuition discriminate.
Defined.

(* ================================================================== *)
(** ** Further statements on concrete stores                            *)
(* ================================================================== *)

Lemma log_ratio_three_two (ps : list posting) :
  List.length ps = 2 -> log_ratio (mkQuery 3) ps = Ok (ln (INR 3 / INR 2)).
Proof.
  intros H. rewrite log_ratio_ok; simpl; try lia.
  - now rewrite H.
  - intros ->. discriminate.
Qed.

Lemma ln_three_two_nonzero : ln (INR 3 / INR 2) <> 0%R.
Proof. apply ln_neq_0; simpl; lra. Qed.

(** The query "dog" on [store_tie], with three documents in the corpus,
    scores [0/1] and [0/2] alike. *)
Lemma final_scores_tie :
  final_scores split_blanks no_stem (mkQuery 3) store_tie "dog" = Ok tie_scores.
Proof.
  unfold final_scores, process_query.
  change (tokenize_query split_blanks no_stem "dog") with [("dog", 1)].
  unfold query_tf. cbn [for_each List.length].
  rewrite py_truediv_ok by (simpl; lra).
  cbn [rbind for_each]. unfold weigh_query.
  cbn [Dict.set Dict.keys map fst for_each].
  change (postings_of store_tie "dog")
    with (Ok (docs (mkRow "dog" [mkPosting "0/1" (1 / 2) (1 / 10) (Some 1%R);
                                 mkPosting "0/2" (1 / 2) (1 / 10) (Some 1%R)]))).
  cbn [rbind docs]. rewrite log_ratio_three_two by reflexivity.
  cbn [rbind]. unfold score_postings.
  change (Dict.keys (Dict.update 0%R "dog" (fun v : R => (v * ln (INR 3 / INR 2))%R)
                                 [("dog", (INR 1 / INR 1)%R)])) with ["dog"].
  cbn [for_each].
  change (postings_of store_tie "dog")
    with (Ok (docs (mkRow "dog" [mkPosting "0/1" (1 / 2) (1 / 10) (Some 1%R);
                                 mkPosting "0/2" (1 / 2) (1 / 10) (Some 1%R)]))).
  cbn [rbind for_each docs]. unfold score_posting.
  rewrite !log_ratio_three_two by reflexivity. cbn [rbind].
  rewrite !py_truediv_ok by apply ln_three_two_nonzero.
  reflexivity.
Qed.

Lemma ranking_breaks_ties_by_first_appearance_witness :
  exists ranked,
    calculate_cosine_similarity split_blanks no_stem (mkQuery 3) store_tie "dog"
    = Ok (map fst (firstn 20 ranked)) /\
    Permutation tie_scores ranked /\
    StronglySorted score_ge ranked /\
    forall v, filter (has_score v) ranked = filter (has_score v) tie_scores.
Proof.
  exact (ranking_breaks_ties_by_first_appearance
           split_blanks no_stem (mkQuery 3) store_tie "dog" tie_scores
           final_scores_tie).
Defined.

Lemma process_query_weights_witness :
  Dict.keys fox_weights = Dict.keys (tokenize_query split_blanks no_stem "fox") /\
  vector_length_of fox_weights = euclidean_norm (Dict.values fox_weights) /\
  forall l,
    In l (query_lemmas split_blanks no_stem "fox") ->
    exists postings_list,
      postings_of store_built l = Ok postings_list /\
      Dict.get l fox_weights =
      Some (INR (count_occ string_dec (query_lemmas split_blanks no_stem "fox") l) /
            INR (List.length (nodup string_dec (query_lemmas split_blanks no_stem "fox"))) *
            query_idf (mkQuery 2) postings_list)%R.
Proof.
  exact (process_query_weights
           split_blanks no_stem (mkQuery 2) store_built "fox"
           fox_weights (vector_length_of fox_weights) process_query_fox).
Defined.

Lemma stale_engine_raises_witness :
  exists e,
    calculate_cosine_similarity split_blanks no_stem (mkQuery 0) store_built "fox"
    = Raise e /\
    (e = ValueError \/ e = TypeError).
Proof.
  eapply (stale_engine_raises split_blanks no_stem (mkQuery 0) store_built "fox" "fox").
  - reflexivity.
  - left. reflexivity.
  - reflexivity.
  - discriminate.
Defined.

Lemma analytics_need_test_words_witness :
  exists e,
    fst (generate_analytics split_blanks no_stem env_corpus state_built) = Raise e /\
    collection (snd (generate_analytics split_blanks no_stem env_corpus state_built))
    = collection state_built /\
    num_documents (snd (generate_analytics split_blanks no_stem env_corpus state_built))
    = num_documents state_built.
Proof.
  apply (analytics_need_test_words
           split_blanks no_stem env_corpus state_built "informatics" "informatics").
  - left. reflexivity.
  - left. reflexivity.
  - reflexivity.
Defined.









Lemma process_dir_rejects_bad_keys_witness :
  process_dir split_blanks no_stem [] env_corpus "bookkeeping.json" state_built
  = (Raise ValueError, state_built) /\
  process_dir split_blanks no_stem [] env_corpus "0/3" state_built
  = (Raise FileNotFoundError, state_built).
Proof.
  split.
  - apply (proj1 (process_dir_rejects_bad_keys split_blanks no_stem [] env_corpus
                                               state_built)).
    discriminate.
  - apply (proj2 (process_dir_rejects_bad_keys split_blanks no_stem [] env_corpus
                                               state_built) "0" "3"); reflexivity.
Defined.



(** Each test query of the analytics evaluates on [store_words] and
    resolves in the bookkeeping file of the corpus. *)
Lemma test_query_on_words (query : string) (s : state) :
  In query test_queries ->
  collection s = store_words ->
  exists urls,
    fst (query_index split_blanks no_stem env_corpus (mkQuery 2) query s) = Ok urls.
Proof.
  intros Hq Hs.
  destruct (answerable_query_evaluates split_blanks no_stem (mkQuery 2) store_words query)
    as [results Hres].
  { intros l Hl. unfold answerable. cbn [total_docs].
    destruct Hq as [<-|[<-|[<-|[]]]]; destruct Hl as [<-|[]];
      (eexists; split; [reflexivity|]; right; cbn [docs List.length]; lia). }
  rewrite <- Hs in Hres.
  rewrite (query_index_found
             split_blanks no_stem env_corpus (mkQuery 2) query s results
             [("0/1", "www.ics.uci.edu/fox"); ("0/2", "www.ics.uci.edu/dog")]
             Hres eq_refl).
  - eexists. reflexivity.
  - intros d Hd.
    apply (ranking_locations split_blanks no_stem _ _ _ _ _ Hres) in Hd.
    rewrite Hs in Hd. exact Hd.
Qed.

Lemma analytics_report_witness :
  exists rs,
    fst (generate_analytics split_blanks no_stem env_corpus state_words) = Ok tt /\
    analytics_txt (snd (generate_analytics split_blanks no_stem env_corpus state_words)) =
      report_header 2 (0 / 1024) 3 ++ report_blocks test_queries rs /\
    Forall (fun urls => List.length urls <= 20) rs.
Proof.
  destruct (test_query_on_words "informatics" state_words (or_introl eq_refl) eq_refl)
    as [r1 H1].
  destruct (test_query_on_words "mondego" state_words
                                (or_intror (or_introl eq_refl)) eq_refl) as [r2 H2].
  destruct (test_query_on_words "irvine" state_words
                                (or_intror (or_intror (or_introl eq_refl))) eq_refl)
    as [r3 H3].
  exists [r1; r2; r3].
  apply (analytics_report split_blanks no_stem env_corpus state_words [r1; r2; r3]).
  repeat constructor; assumption.
Defined.

